(** * flopy.mf6.data.mfdatautil: a shallow embedding and its properties

    The module under study is [flopy/mf6/data/mfdatautil.py].  Python
    values are modelled by inductive types, Python exceptions by an
    explicit [result] type, and mutable iterator objects by records that
    are threaded through the functions that update them. *)

From Stdlib Require Import ZArith QArith Lia Ascii String List.
From Stdlib Require Import DecimalString DecimalPos DecimalZ.
From Stdlib Require Import Floats.
From stdpp Require Import base option list sorting gmap strings.

Local Open Scope string_scope.
Local Open Scope list_scope.
Local Open Scope Z_scope.

Set Warnings "-register-all,-inexact-float".

(** ** Exceptions and fallible computations *)

Inductive exn : Type :=
| TypeError
| ValueError
| IndexError
| AttributeError
| OverflowError
| StopIteration
| MFDataException (msg : string).

Inductive result (A : Type) : Type :=
| Ok (a : A)
| Raise (e : exn).
Arguments Ok {A} a.
Arguments Raise {A} e.

Definition rbind {A B} (m : result A) (k : A -> result B) : result B :=
  match m with
  | Ok a => k a
  | Raise e => Raise e
  end.

Notation "x <-! m ; k" := (rbind m (fun x => k))
  (at level 100, m at next level, right associativity, only parsing).

Definition rmap {A B} (f : A -> B) (m : result A) : result B :=
  x <-! m; Ok (f x).

(** ** Python [str] builtins *)

Module PyStr.

Definition code (c : ascii) : nat := nat_of_ascii c.

(** [str.isspace] restricted to code points below 128: TAB, LF, VT, FF,
    CR, the four separators FS, GS, RS, US, and the space. *)
Definition isspace (c : ascii) : bool :=
  let n := code c in
  ((9 <=? n) && (n <=? 13) || (28 <=? n) && (n <=? 32))%nat.

Definition isdigit (c : ascii) : bool :=
  let n := code c in ((48 <=? n) && (n <=? 57))%nat.

Definition digit_val (c : ascii) : Z := Z.of_nat (code c) - 48.

Definition lower_char (c : ascii) : ascii :=
  let n := code c in
  if ((65 <=? n) && (n <=? 90))%nat then ascii_of_nat (n + 32) else c.

(** [s.lower()] *)
Fixpoint lower (s : string) : string :=
  match s with
  | EmptyString => EmptyString
  | String c r => String (lower_char c) (lower r)
  end.

(** [s.lstrip()], [s.rstrip()], [s.strip()] *)
Fixpoint lstrip (s : string) : string :=
  match s with
  | EmptyString => EmptyString
  | String c r => if isspace c then lstrip r else s
  end.

Fixpoint rstrip (s : string) : string :=
  match s with
  | EmptyString => EmptyString
  | String c r =>
      match rstrip r with
      | EmptyString => if isspace c then EmptyString else String c EmptyString
      | r' => String c r'
      end
  end.

Definition strip (s : string) : string := rstrip (lstrip s).

(** [s[-1]]: raises IndexError on the empty string. *)
Fixpoint last_char (s : string) : option ascii :=
  match s with
  | EmptyString => None
  | String c EmptyString => Some c
  | String _ r => last_char r
  end.

(** [s[1:]] *)
Definition drop_first (s : string) : string :=
  match s with
  | EmptyString => EmptyString
  | String _ r => r
  end.

(** [s[:-1]] *)
Fixpoint drop_last (s : string) : string :=
  match s with
  | EmptyString => EmptyString
  | String _ EmptyString => EmptyString
  | String c r => String c (drop_last r)
  end.

Definition cons_nonempty (tok : string) (toks : list string) : list string :=
  match tok with
  | EmptyString => toks
  | _ => tok :: toks
  end.

(** [s.split()]: the maximal runs of non-whitespace characters.  The
    auxiliary function returns the run that is still open at the left
    end of [s] and the runs that are already closed. *)
Fixpoint split_ws_aux (s : string) : string * list string :=
  match s with
  | EmptyString => (EmptyString, [])
  | String c r =>
      let '(tok, toks) := split_ws_aux r in
      if isspace c then (EmptyString, cons_nonempty tok toks)
      else (String c tok, toks)
  end.

Definition split_ws (s : string) : list string :=
  let '(tok, toks) := split_ws_aux s in cons_nonempty tok toks.

(** [s.split(d)] for a one-character separator [d]: every occurrence of
    [d] closes a field, empty fields are kept. *)
Fixpoint split_on_aux (d : ascii) (s : string) : string * list string :=
  match s with
  | EmptyString => (EmptyString, [])
  | String c r =>
      let '(tok, toks) := split_on_aux d r in
      if Ascii.eqb c d then (EmptyString, tok :: toks)
      else (String c tok, toks)
  end.

Definition split_on (d : ascii) (s : string) : list string :=
  let '(tok, toks) := split_on_aux d s in tok :: toks.

(** ['{} {}'.format(a, b)] *)
Definition format_pair (a b : string) : string := a +:+ " " +:+ b.

End PyStr.

(** ** Python's [int(str)] and [float(str)] on text

    Both builtins skip the surrounding whitespace of the C locale, accept
    one optional sign and then a literal in which single underscores may
    separate digits. *)

Module PyNum.
Import PyStr.

(** The whitespace the number parsers skip on ASCII text: TAB, LF, VT,
    FF, CR and the space, without the separators FS, GS, RS, US that
    [str.strip] also removes. *)
Definition isspace_c (c : ascii) : bool :=
  let n := code c in
  ((9 <=? n) && (n <=? 13) || (n =? 32))%nat.

Fixpoint lstrip_c (s : string) : string :=
  match s with
  | EmptyString => EmptyString
  | String c r => if isspace_c c then lstrip_c r else s
  end.

Fixpoint rstrip_c (s : string) : string :=
  match s with
  | EmptyString => EmptyString
  | String c r =>
      match rstrip_c r with
      | EmptyString => if isspace_c c then EmptyString else String c EmptyString
      | r' => String c r'
      end
  end.

Definition strip_c (s : string) : string := rstrip_c (lstrip_c s).

Definition strip_sign (s : string) : bool * string :=
  match s with
  | String "+"%char r => (false, r)
  | String "-"%char r => (true, r)
  | _ => (false, s)
  end.

(** Continue a digit run whose value so far is [acc] and which has [n]
    digits; stops in front of the first character that cannot extend
    the run. *)
Fixpoint scan_more (acc n : Z) (s : string) : Z * Z * string :=
  match s with
  | EmptyString => (acc, n, EmptyString)
  | String c r =>
      if isdigit c then scan_more (10 * acc + digit_val c) (n + 1) r
      else if Ascii.eqb c "_"%char then
        match r with
        | String d r' =>
            if isdigit d then scan_more (10 * acc + digit_val d) (n + 1) r'
            else (acc, n, s)
        | EmptyString => (acc, n, s)
        end
      else (acc, n, s)
  end.

(** A digit part [digit (["_"] digit)*] continuing the value [acc]. *)
Definition digitpart (acc n : Z) (s : string) : option (Z * Z * string) :=
  match s with
  | String c r =>
      if isdigit c then Some (scan_more (10 * acc + digit_val c) (n + 1) r)
      else None
  | EmptyString => None
  end.

(** [int(s)] for a string [s]. *)
Definition int_of_str (s : string) : result Z :=
  let '(neg, body) := strip_sign (strip_c s) in
  match digitpart 0 0 body with
  | Some (v, _, EmptyString) => Ok (if neg then - v else v)
  | _ => Raise ValueError
  end.

(** The text of a float literal: an infinity, a NaN, or a decimal
    [mant * 10 ^ expo].  The rounding to a binary double is not part of
    the model; [float(s)] succeeds or fails on the text alone. *)
Inductive pyfloat : Type :=
| FInf (neg : bool)
| FNan
| FDec (neg : bool) (mant expo : Z).

Definition exponent (m e0 : Z) (s : string) : option (Z * Z) :=
  match s with
  | EmptyString => Some (m, e0)
  | String c r =>
      if Ascii.eqb c "e"%char || Ascii.eqb c "E"%char then
        let '(eneg, r') := strip_sign r in
        match digitpart 0 0 r' with
        | Some (x, _, EmptyString) => Some (m, e0 + (if eneg then - x else x))
        | _ => None
        end
      else None
  end.

Definition fraction (i : Z) (s : string) (need : bool) : option (Z * Z) :=
  match digitpart i 0 s with
  | Some (m, nf, rest) => exponent m (- nf) rest
  | None => if need then None else exponent i 0 s
  end.

Definition decimal (s : string) : option (Z * Z) :=
  match digitpart 0 0 s with
  | Some (i, _, rest) =>
      match rest with
      | String "."%char rest' => fraction i rest' false
      | _ => exponent i 0 rest
      end
  | None =>
      match s with
      | String "."%char rest' => fraction 0 rest' true
      | _ => None
      end
  end.

(** [float(s)] for a string [s]. *)
Definition float_of_str (s : string) : result pyfloat :=
  let '(neg, body) := strip_sign (strip_c s) in
  let low := lower body in
  if String.eqb low "inf" || String.eqb low "infinity" then Ok (FInf neg)
  else if String.eqb low "nan" then Ok FNan
  else match decimal body with
       | Some (m, e) => Ok (FDec neg m e)
       | None => Raise ValueError
       end.

End PyNum.

(** ** [DatumUtil]: the numeric token classifier *)

(** A token handed to the classifier is a field of an input line, or
    [None] where a field is absent. *)
Inductive token : Type :=
| TokNone
| TokStr (s : string).

Module DatumUtil.

(** [int(tok)], [float(tok)] *)
Definition py_int (tok : token) : result Z :=
  match tok with
  | TokNone => Raise TypeError
  | TokStr s => PyNum.int_of_str s
  end.

Definition py_float (tok : token) : result PyNum.pyfloat :=
  match tok with
  | TokNone => Raise TypeError
  | TokStr s => PyNum.float_of_str s
  end.

(** [try: conv(str); return True
     except TypeError: return False
     except ValueError: return False] *)
Definition try_convert {A} (conv : result A) : result bool :=
  match conv with
  | Ok _ => Ok true
  | Raise TypeError => Ok false
  | Raise ValueError => Ok false
  | Raise e => Raise e
  end.

Definition is_int (tok : token) : result bool := try_convert (py_int tok).

Definition is_float (tok : token) : result bool := try_convert (py_float tok).

End DatumUtil.

(** ** [find_keyword] *)

(** [for word in arr_line:
       if not is_int(word) and not is_float(word):
           arr_line_lower.append(word.lower())] *)
Fixpoint lower_words (arr_line : list string) : result (list string) :=
  match arr_line with
  | [] => Ok []
  | word :: rest =>
      i <-! DatumUtil.is_int (TokStr word);
      f <-! (if negb i then DatumUtil.is_float (TokStr word) else Ok true);
      arr_line_lower <-! lower_words rest;
      Ok (if negb i && negb f then PyStr.lower word :: arr_line_lower
          else arr_line_lower)
  end.

(** [for num_words in range(len(arr_line_lower), -1, -1)], entered with
    [num_words] still to be tried. *)
Fixpoint search_key {V} (arr_line_lower : list string)
    (keyword_dict : gmap (list string) V) (num_words : nat)
    : option (list string) :=
  let key := take num_words arr_line_lower in
  if (0 <? length key)%nat && bool_decide (is_Some (keyword_dict !! key))
  then Some key
  else match num_words with
       | O => None
       | S n => search_key arr_line_lower keyword_dict n
       end.

Definition find_keyword {V} (arr_line : list string)
    (keyword_dict : gmap (list string) V) : result (option (list string)) :=
  arr_line_lower <-! lower_words arr_line;
  Ok (search_key arr_line_lower keyword_dict (length arr_line_lower)).

(** ** Nested value trees *)

Inductive value : Type :=
| VNone
| VBool (b : bool)
| VInt (z : Z)
| VFloat (q : Q)
| VStr (s : string)
| VList (items : list value).

Definition isinstance_list (v : value) : bool :=
  match v with
  | VList _ => true
  | _ => false
  end.

(** The number a scalar stands for in a comparison, if it is numeric. *)
Definition numeric (v : value) : option Q :=
  match v with
  | VBool b => Some (if b then 1 else 0)%Q
  | VInt z => Some (inject_Z z)
  | VFloat q => Some q
  | _ => None
  end.

(** [a == b] *)
Fixpoint py_eq (a b : value) {struct a} : bool :=
  match numeric a, numeric b with
  | Some x, Some y => Qeq_bool x y
  | _, _ =>
      match a, b with
      | VNone, VNone => true
      | VStr s, VStr t => String.eqb s t
      | VList xs, VList ys =>
          (fix all2 (xs ys : list value) {struct xs} : bool :=
             match xs, ys with
             | [], [] => true
             | x :: xs', y :: ys' => py_eq x y && all2 xs' ys'
             | _, _ => false
             end) xs ys
      | _, _ => false
      end
  end.

(** [a != b] evaluates to a [bool] object. *)
Definition py_ne (a b : value) : value := VBool (negb (py_eq a b)).

(** [len(v)]: only sequences and strings have a length. *)
Definition py_len (v : value) : result Z :=
  match v with
  | VList items => Ok (Z.of_nat (length items))
  | VStr s => Ok (Z.of_nat (String.length s))
  | _ => Raise TypeError
  end.

(** [l[i]] with Python's negative indices. *)
Definition py_index {A} (l : list A) (i : Z) : result A :=
  let n := Z.of_nat (length l) in
  let j := if i <? 0 then i + n else i in
  if j <? 0 then Raise IndexError
  else match l !! Z.to_nat j with
       | Some x => Ok x
       | None => Raise IndexError
       end.

(** [l[i] = x] with Python's negative indices. *)
Definition py_setitem {A} (l : list A) (i : Z) (x : A) : result (list A) :=
  let n := Z.of_nat (length l) in
  let j := if i <? 0 then i + n else i in
  if (j <? 0) || (n <=? j) then Raise IndexError
  else Ok (<[Z.to_nat j := x]> l).

(** ** The part of [numpy] that the module uses on numeric arrays

    Arrays of [float64] and of [int64] values, the element types that
    [numpy] gives to Python floats and integers; the two operands of an
    operation hold elements of one type. *)

Module np.

(** An element type, with the scalar operations behind [-], [np.abs]
    and [np.max], and the comparisons [>], [<=] and [==] of an array
    scalar with a Python [float]. *)
Class dtype (num : Type) : Type := {
  sub : num -> num -> num;
  absolute : num -> num;
  isnan : num -> bool;
  greater_equal : num -> num -> bool;
  greater_float : num -> float -> bool;
  less_equal_float : num -> float -> bool;
  equal_float : num -> float -> bool
}.

(** [float64]: IEEE 754 binary64 arithmetic. *)
#[global] Instance float64 : dtype float := {|
  sub := PrimFloat.sub;
  absolute := PrimFloat.abs;
  isnan := PrimFloat.is_nan;
  greater_equal x y := PrimFloat.leb y x;
  greater_float x y := PrimFloat.ltb y x;
  less_equal_float x y := PrimFloat.leb x y;
  equal_float x y := PrimFloat.eqb x y
|}.

(** [int64]: two's complement arithmetic that wraps around; compared
    with a Python [float], an [int64] is first converted to binary64,
    rounding to nearest even. *)
Definition wrap64 (z : Z) : Z := (z + 2 ^ 63) mod 2 ^ 64 - 2 ^ 63.

Definition float_of_int64 (z : Z) : spec_float :=
  binary_normalize prec emax z 0 false.

#[global] Instance int64 : dtype Z := {|
  sub x y := wrap64 (x - y);
  absolute x := wrap64 (Z.abs x);
  isnan _ := false;
  greater_equal x y := y <=? x;
  greater_float x y := SFltb (Prim2SF y) (float_of_int64 x);
  less_equal_float x y := SFleb (float_of_int64 x) (Prim2SF y);
  equal_float x y := SFeqb (float_of_int64 x) (Prim2SF y)
|}.

(** An array: its shape and its elements in row-major order. *)
Record ndarray (num : Type) : Type := { shape : list nat; data : list num }.
Arguments shape {num} _.
Arguments data {num} _.

Definition size (shape : list nat) : nat := foldr Nat.mul 1%nat shape.

(** [np.array(l)] of a flat sequence. *)
Definition array {num : Type} (l : list num) : ndarray num :=
  {| shape := [length l]; data := l |}.

(** Every array holds as many elements as its shape says. *)
Definition wf {num} (a : ndarray num) : Prop :=
  length (data a) = size (shape a).

(** Broadcasting of two shapes, from the last axis backwards. *)
Fixpoint broadcast_rev (s1 s2 : list nat) : result (list nat) :=
  match s1, s2 with
  | [], s | s, [] => Ok s
  | d1 :: r1, d2 :: r2 =>
      d <-! (if (d1 =? d2)%nat then Ok d1
             else if (d1 =? 1)%nat then Ok d2
             else if (d2 =? 1)%nat then Ok d1
             else Raise ValueError);
      r <-! broadcast_rev r1 r2;
      Ok (d :: r)
  end.

Definition broadcast_shapes (s1 s2 : list nat) : result (list nat) :=
  r <-! broadcast_rev (rev s1) (rev s2);
  Ok (rev r).

Fixpoint chunks {A} (n size : nat) (l : list A) : list (list A) :=
  match n with
  | O => []
  | S n' => take size l :: chunks n' size (drop size l)
  end.

(** The elements of an array of shape [shape] seen through the shape
    [target] that it broadcasts to: missing leading axes and axes of
    length one are repeated. *)
Fixpoint broadcast_to {A} (shape target : list nat) (l : list A) : list A :=
  match target with
  | [] => l
  | t :: target' =>
      if (length shape <? length target)%nat
      then concat (replicate t (broadcast_to shape target' l))
      else
        match shape with
        | [] => l
        | d :: shape' =>
            if (d =? t)%nat
            then concat (map (broadcast_to shape' target')
                             (chunks d (size shape') l))
            else concat (replicate t (broadcast_to shape' target' l))
        end
  end.

(** [a - b] *)
Definition subtract {num : Type} `{!dtype num} (a b : ndarray num)
    : result (ndarray num) :=
  s <-! broadcast_shapes (shape a) (shape b);
  Ok {| shape := s;
        data := zip_with sub (broadcast_to (shape a) s (data a))
                             (broadcast_to (shape b) s (data b)) |}.

(** [np.abs(a)] *)
Definition abs {num : Type} `{!dtype num} (a : ndarray num) : ndarray num :=
  {| shape := shape a; data := map absolute (data a) |}.

(** One step of the reduction behind [np.max]: a NaN is kept. *)
Definition maximum {num : Type} `{!dtype num} (x y : num) : num :=
  if greater_equal x y || isnan x then x else y.

(** [np.max(a)]: an array without elements has no maximum. *)
Definition max {num : Type} `{!dtype num} (a : ndarray num) : result num :=
  match data a with
  | [] => Raise ValueError
  | x :: rest => Ok (fold_left maximum rest x)
  end.

End np.

(** The record a traversal yields:
    [(item, end_of_list, new_list, nesting_change)] *)
Definition trav : Type := value * bool * bool * Z.

Module ArrayUtil.

(** The object state: [self.path] and [self.max_error], a Python
    [float]. *)
Record t : Type := { path : string; max_error : float }.

(** [__init__(self, path=None, max_error=0.01)]; [cwd] stands for
    [os.getcwd()], and [0.01] for the binary64 value that Python reads
    the literal as. *)
Definition init (cwd : string) (path : option string)
    (max_error : option float) : t :=
  {| path := match path with
             | Some p => if String.eqb p "" then cwd else p
             | None => cwd
             end;
     max_error := default 0.01%float max_error |}.

(** A value tree holds no [np.ndarray], so the tests
    [isinstance(current_list, np.ndarray)] of this class are false. *)
Definition has_one_item (current_list : value) : result bool :=
  match current_list with
  | VList items =>
      if negb (Z.of_nat (length items) =? 1) then Ok false
      else
        first <-! py_index items 0;
        if isinstance_list first || false then
          n <-! py_len (py_ne first (VInt 0));
          if negb (n =? 0) then Ok false else Ok true
        else Ok true
  | _ => Ok true
  end.

(** The generator [next_item], as the list of the records it yields. *)
Fixpoint next_item (current_list : value) (new_list : bool)
    (nesting_change : Z) (end_of_list : bool) {struct current_list}
    : list trav :=
  match current_list with
  | VList items =>
      let len := Z.of_nat (length items) in
      (fix loop (rest : list value) (list_size nesting_change : Z)
           {struct rest} : list trav :=
         match rest with
         | [] => []
         | item :: rest' =>
             if isinstance_list item then
               next_item item (list_size =? 1) (nesting_change + 1)
                         (list_size =? len)
               ++ loop rest' (list_size + 1) (- (nesting_change + 1))
             else
               (item, list_size =? len, list_size =? 1, nesting_change)
               :: loop rest' (list_size + 1) 0
         end) items 1 nesting_change
  | _ => [(current_list, end_of_list, new_list, nesting_change)]
  end.

(** [item, last_item = record]: a record of [next_item] has four
    components, and unpacking it into two names raises [ValueError]. *)
Definition unpack_two (record : trav) : result (value * bool) :=
  let '(item, end_of_list, new_list, nesting_change) := record in
  Raise ValueError.

(** [for item, last_item in records: item_num += 1] *)
Fixpoint count_items (records : list trav) (item_num : Z) : result Z :=
  match records with
  | [] => Ok item_num
  | record :: rest =>
      _ <-! unpack_two record;
      count_items rest (item_num + 1)
  end.

Definition multi_dim_list_size (current_list : value) : result Z :=
  match current_list with
  | VNone => Ok 0
  | VList _ => count_items (next_item current_list true 0 true) 0
  | _ => Ok 1
  end.

(** [first_array] and [second_array] are [numpy] arrays. *)
Definition array_comp {num : Type} `{!np.dtype num} (self : t)
    (first_array second_array : np.ndarray num) : result bool :=
  diff <-! np.subtract first_array second_array;
  max <-! np.max (np.abs diff);
  if np.greater_float max (max_error self) then Ok false else Ok true.

(** *** [split_data_line] *)

Definition tab : ascii := ascii_of_nat 9.

Definition squote : ascii := ascii_of_nat 39.
Definition dquote : ascii := ascii_of_nat 34.

Definition quote_list : list ascii := [squote; dquote].

(** The keys of [delimiter_list], in the order they are written. *)
Definition delimiter_list : list ascii := [","%char; tab; " "%char].

Definition is_quote (c : ascii) : bool :=
  existsb (Ascii.eqb c) quote_list.

Definition is_delimiter (item : string) : bool :=
  existsb (fun d => String.eqb item (String d EmptyString)) delimiter_list.

(** [arr_fixed_line[-1] = new] *)
Fixpoint set_last (arr : list string) (new : string) : list string :=
  match arr with
  | [] => []
  | [_] => [new]
  | x :: rest => x :: set_last rest new
  end.

(** The delimiter trial: each delimiter that splits the line into more
    fields than the best split seen so far becomes the choice. *)
Definition try_delimiter (line : string) (st : nat * option ascii)
    (delimiter : ascii) : nat * option ascii :=
  let alt_split := PyStr.split_on delimiter (PyStr.strip line) in
  if (fst st <? length alt_split)%nat
  then (length alt_split, Some delimiter)
  else st.

Definition choose_split (line : string) (external_file : bool) : list string :=
  let clean_line := PyStr.split_ws (PyStr.strip line) in
  if external_file then
    let '(_, max_split_type) :=
      fold_left (try_delimiter line) delimiter_list (length clean_line, None) in
    match max_split_type with
    | Some d => PyStr.split_on d (PyStr.strip line)
    | None => clean_line
    end
  else clean_line.

(** The outer [while] loop, entered at the tokens that are still to be
    read, and the inner loop that runs while a quote is open. *)
Fixpoint fix_quotes (clean_line : list string) (arr_fixed_line : list string)
    {struct clean_line} : result (list string) :=
  match clean_line with
  | [] => Ok arr_fixed_line
  | item :: rest =>
      if negb (is_delimiter item) then
        match item with
        | String c _ =>
            if is_quote c then
              match PyStr.last_char item with
              | None => Raise IndexError
              | Some l =>
                  if is_quote l then
                    fix_quotes rest
                      (arr_fixed_line ++ [PyStr.drop_last (PyStr.drop_first item)])
                  else
                    open_quote rest (arr_fixed_line ++ [PyStr.drop_first item])
              end
            else fix_quotes rest (arr_fixed_line ++ [item])
        | EmptyString => fix_quotes rest (arr_fixed_line ++ [item])
        end
      else fix_quotes rest arr_fixed_line
  end
with open_quote (clean_line : list string) (arr_fixed_line : list string)
    {struct clean_line} : result (list string) :=
  match clean_line with
  | [] => Ok arr_fixed_line
  | item :: rest =>
      match PyStr.last_char item, last arr_fixed_line with
      | Some l, Some field =>
          if is_quote l then
            fix_quotes rest
              (set_last arr_fixed_line
                 (PyStr.format_pair field (PyStr.drop_last item)))
          else
            open_quote rest
              (set_last arr_fixed_line (PyStr.format_pair field item))
      | _, _ => Raise IndexError
      end
  end.

Definition split_data_line (line : string) (external_file : bool)
    : result (list string) :=
  fix_quotes (choose_split line external_file) [].

(** *** Further functions of [ArrayUtil] *)

(** The truth value of a scalar or a list, as [not x] tests it. *)
Definition py_bool (v : value) : bool :=
  match v with
  | VNone => false
  | VBool b => b
  | VInt z => negb (z =? 0)
  | VFloat q => negb (Qeq_bool q 0)
  | VStr s => negb (String.eqb s "")
  | VList items => match items with [] => false | _ => true end
  end.

(** [is_empty_list]: the loop returns at the first item that is no list
    and at the first list that is not empty. *)
Fixpoint is_empty_list (current_list : value) : bool :=
  match current_list with
  | VList items =>
      (fix loop (rest : list value) : bool :=
         match rest with
         | [] => true
         | item :: rest' =>
             if isinstance_list item then
               if negb (is_empty_list item) then false else loop rest'
             else false
         end) items
  | _ => negb (py_bool current_list)
  end.

(** [first_item]: the loop returns in its first pass; a list without
    items falls through to the end of the function, which returns
    [None]. *)
Fixpoint first_item (current_list : value) : value :=
  match current_list with
  | VList items =>
      match items with
      | [] => VNone
      | item :: _ => if isinstance_list item then first_item item else item
      end
  | _ => current_list
  end.

(** [max_multi_dim_list_size] on the items of a list, from the running
    [max_length]. *)
Fixpoint max_length_loop (items : list value) (max_length : Z) : result Z :=
  match items with
  | [] => Ok max_length
  | item :: rest =>
      n <-! py_len item;
      if max_length <? n then
        n' <-! py_len item;
        max_length_loop rest n'
      else max_length_loop rest max_length
  end.

Definition max_multi_dim_list_size (current_list : list value) : result Z :=
  max_length_loop current_list (-1).

(** [can_convert(data, data_type)], given the outcome of
    [data_type(data)]. *)
Definition can_convert {A} (conversion : result A) : result bool :=
  match conversion with
  | Ok _ => Ok true
  | Raise TypeError => Ok false
  | Raise ValueError => Ok false
  | Raise e => Raise e
  end.

(** [clean_numeric] on a [str]: the keys of [numeric_chars]. *)
Definition numeric_chars (c : ascii) : bool :=
  PyStr.isdigit c || Ascii.eqb c "."%char || Ascii.eqb c "-"%char.

Definition first_char (s : string) : option ascii :=
  match s with
  | EmptyString => None
  | String c _ => Some c
  end.

(** [text and (text[0] not in numeric_chars or text[-1] not in
    numeric_chars)] *)
Definition unclean (text : string) : bool :=
  match first_char text, PyStr.last_char text with
  | Some a, Some z => negb (numeric_chars a) || negb (numeric_chars z)
  | _, _ => false
  end.

(** One pass through the body of the [while] loop. *)
Definition clean_step (text : string) : string :=
  let text1 :=
    match first_char text with
    | Some a => if negb (numeric_chars a) then PyStr.drop_first text else text
    | None => text
    end in
  match PyStr.last_char text1 with
  | Some z => if negb (numeric_chars z) then PyStr.drop_last text1 else text1
  | None => text1
  end.

(** The [while] loop; [None] when [fuel] passes do not end it. *)
Fixpoint clean_loop (fuel : nat) (text : string) : option string :=
  if unclean text then
    match fuel with
    | O => None
    | S fuel' => clean_loop fuel' (clean_step text)
    end
  else Some text.

(** [clean_numeric(text)]: anything but a [str] is returned as it is;
    the loop is given one pass per character. *)
Definition clean_numeric (text : value) : option value :=
  match text with
  | VStr s => VStr <$> clean_loop (String.length s) s
  | _ => Some text
  end.

End ArrayUtil.

(** ** [ArrayIndexIter] *)

Module ArrayIndexIter.

Record t : Type := {
  array_shape : list Z;
  current_location : list Z;
  first_item : bool;
  current_index : Z
}.

(** [__init__(self, array_shape)] *)
Definition init (array_shape : list Z) : t :=
  let current_location := map (fun _ => 0) array_shape in
  {| array_shape := array_shape;
     current_location := current_location;
     first_item := true;
     current_index := Z.of_nat (length current_location) - 1 |}.

(** What [__next__] hands out: an [int] or a [tuple] of [int]. *)
Inductive coord : Type :=
| CInt (z : Z)
| CTuple (l : list Z).

(** [if len(self.current_location) > 1:
       return tuple(self.current_location)
     else:
       return self.current_location[0]] *)
Definition location_value (current_location : list Z) : result coord :=
  if 1 <? Z.of_nat (length current_location)
  then Ok (CTuple current_location)
  else x <-! py_index current_location 0; Ok (CInt x).

(** One pass through the body of the [while] loop: [Ok (Some c)] is a
    [return c], [Ok None] falls through to the next test of the loop
    condition.  The object is returned as the pass leaves it. *)
Definition loop_body (self : t) : result (option coord) * t :=
  match py_index (current_location self) (current_index self) with
  | Raise e => (Raise e, self)
  | Ok location =>
      match py_index (array_shape self) (current_index self) with
      | Raise e => (Raise e, self)
      | Ok bound =>
          if location <? bound - 1 then
            match py_setitem (current_location self) (current_index self)
                             (location + 1) with
            | Raise e => (Raise e, self)
            | Ok loc' =>
                (rmap Some (location_value loc'),
                 {| array_shape := array_shape self;
                    current_location := loc';
                    first_item := first_item self;
                    current_index := Z.of_nat (length loc') - 1 |})
            end
          else
            match py_setitem (current_location self) (current_index self) 0 with
            | Raise e => (Raise e, self)
            | Ok loc' =>
                (Ok None,
                 {| array_shape := array_shape self;
                    current_location := loc';
                    first_item := first_item self;
                    current_index := current_index self - 1 |})
            end
      end
  end.

(** [while self.current_index >= 0: ...] followed by
    [raise StopIteration()]; [None] when [fuel] passes do not suffice. *)
Fixpoint while_loop (fuel : nat) (self : t) : option (result coord * t) :=
  if 0 <=? current_index self then
    match fuel with
    | O => None
    | S fuel' =>
        match loop_body self with
        | (Raise e, self') => Some (Raise e, self')
        | (Ok (Some c), self') => Some (Ok c, self')
        | (Ok None, self') => while_loop fuel' self'
        end
    end
  else Some (Raise StopIteration, self).

(** [__next__(self)]: the loop is given one pass per axis that is still
    to be visited. *)
Definition __next__ (self : t) : option (result coord * t) :=
  if first_item self then
    Some (location_value (current_location self),
          {| array_shape := array_shape self;
             current_location := current_location self;
             first_item := false;
             current_index := current_index self |})
  else while_loop (Z.to_nat (current_index self + 1)) self.

(** [list(it)]: call [__next__] until it raises [StopIteration]; any
    other exception is passed on.  [None] when [fuel] calls do not
    exhaust the iterator. *)
Fixpoint collect (fuel : nat) (self : t) : option (result (list coord) * t) :=
  match fuel with
  | O => None
  | S fuel' =>
      match __next__ self with
      | None => None
      | Some (Ok c, self') =>
          match collect fuel' self' with
          | Some (Ok cs, self'') => Some (Ok (c :: cs), self'')
          | other => other
          end
      | Some (Raise StopIteration, self') => Some (Ok [], self')
      | Some (Raise e, self') => Some (Raise e, self')
      end
  end.

(** *** The row-major enumeration of a shape, written independently *)

(** Nested loops over the axes, the last axis innermost. *)
Fixpoint row_major (shape : list Z) : list (list Z) :=
  match shape with
  | [] => [[]]
  | n :: rest =>
      concat (map (fun i => map (cons i) (row_major rest)) (seqZ 0 n))
  end.

(** A single integer for rank one, a tuple otherwise. *)
Definition as_coord (loc : list Z) : coord :=
  match loc with
  | [x] => CInt x
  | _ => CTuple loc
  end.

(** Strict lexicographic order on coordinates of one rank. *)
Fixpoint lex_lt (a b : list Z) : Prop :=
  match a, b with
  | x :: a', y :: b' => x < y \/ (x = y /\ lex_lt a' b')
  | _, _ => False
  end.

Definition in_bounds (shape loc : list Z) : Prop :=
  Forall2 (fun n x => 0 <= x <= n - 1) shape loc.

Definition product (shape : list Z) : Z := fold_right Z.mul 1 shape.

End ArrayIndexIter.

(** ** [ArrayTemplateGenerator] *)

Module ArrayTemplateGenerator.

(** The three storage kinds of [mfdata.DataStorageType]. *)
Inductive DataStorageType : Type :=
| internal_array
| internal_constant
| external_file.

Definition DataStorageType_eqb (a b : DataStorageType) : bool :=
  match a, b with
  | internal_array, internal_array
  | internal_constant, internal_constant
  | external_file, external_file => true
  | _, _ => false
  end.

(** The element types a field can have. *)
Inductive dtype : Type := np_int | np_float | np_object.

(** [mfstructure.DataType]: [empty] only tests for [array_transient]. *)
Inductive DataType : Type := array_transient | other_datatype.

(** What the schema service answers for the path of the generator:
    [data_storage.get_data_dimensions(None)],
    [data_struct.get_datum_type()] and [data_struct.get_datatype()]. *)
Record schema : Type := {
  dimension_list : list Z;
  datum_type : dtype;
  data_type : DataType
}.

Inductive ndarray : Type :=
| np_empty (shape : list Z) (dt : dtype)
| np_full (shape : list Z) (fill_value : value) (dt : dtype).

Inductive data : Type :=
| DArray (a : ndarray)
| DValue (v : value).

Inductive header : Type :=
| HInternal (factor : Q) (iprn : Z) (d : data)
| HBare (d : data)
| HExternal (filename : string) (factor : Q) (iprn : Z)
| HNone.

Inductive layers : Type :=
| AllLayers (h : header)
| PerLayer (hs : list header).

Inductive template : Type :=
| Plain (l : layers)
| Period0 (l : layers).

(** [TemplateGenerator.build_type_header], called on an
    [ArrayTemplateGenerator]. *)
Definition build_type_header (type : DataStorageType) (d : data) : header :=
  match type with
  | internal_array => HInternal 1 1 d
  | internal_constant => HBare d
  | external_file => HExternal "" 1 1
  end.

Definition _build_layer (data_type : dtype) (data_storage_type : DataStorageType)
    (default_value : option value) (dimension_list : list Z)
    (all_layers : bool) : header :=
  let d :=
    match data_storage_type with
    | internal_array =>
        let shape := if all_layers then dimension_list else drop 1 dimension_list in
        match default_value with
        | None => DArray (np_empty shape data_type)
        | Some v => DArray (np_full shape v data_type)
        end
    | internal_constant =>
        match default_value with
        | None =>
            match data_type with
            | np_int => DValue (VInt 0)
            | _ => DValue (VFloat 0)
            end
        | Some v => DValue v
        end
    | external_file => DValue VNone
    end in
  build_type_header data_storage_type d.

(** [str(n)] of an [int] *)
Definition str_of_int (n : Z) : string := NilZero.string_of_int (Z.to_int n).

Definition except_str (size layers : Z) : string :=
  "data_storage_type_list specified with the wrong size.  Size "
  +:+ str_of_int size
  +:+ " but expected to be the same as the number of layers, "
  +:+ str_of_int layers +:+ ".".

(** [for layer in range(0, dimension_list[0])], from [layer] on, with
    [n] layers to go. *)
Fixpoint build_layers (s : schema) (data_storage_type_list : option (list DataStorageType))
    (default_value : option value) (n : nat) (layer : Z) : result (list header) :=
  match n with
  | O => Ok []
  | S n' =>
      data_storage_type <-!
        match data_storage_type_list with
        | None => Ok internal_array
        | Some l => py_index l layer
        end;
      rest <-! build_layers s data_storage_type_list default_value n' (layer + 1);
      Ok (_build_layer (datum_type s) data_storage_type default_value
                       (dimension_list s) false :: rest)
  end.

Definition wrap (s : schema) (data_with_header : layers) : template :=
  match data_type s with
  | array_transient => Period0 data_with_header
  | other_datatype => Plain data_with_header
  end.

(** The storage kind of the template when all layers are built as one. *)
Definition single_storage_type
    (data_storage_type_list : option (list DataStorageType))
    : result DataStorageType :=
  match data_storage_type_list with
  | None => Ok internal_array
  | Some l =>
      first <-! py_index l 0;
      if DataStorageType_eqb first internal_array then Ok internal_array
      else py_index l 0
  end.

(** [empty]: the lines printed and the value returned or the exception
    raised. *)
Definition empty (s : schema) (layered : bool)
    (data_storage_type_list : option (list DataStorageType))
    (default_value : option value) : list string * result template :=
  match (if layered
         then d0 <-! py_index (dimension_list s) 0; Ok (1 <? d0)
         else Ok false) with
  | Raise e => ([], Raise e)
  | Ok true =>
      match py_index (dimension_list s) 0 with
      | Raise e => ([], Raise e)
      | Ok layer_count =>
          let wrong_size :=
            match data_storage_type_list with
            | Some l => negb (Z.of_nat (length l) =? layer_count)
            | None => false
            end in
          if wrong_size then
            let msg := except_str
                         (Z.of_nat (length (default [] data_storage_type_list)))
                         layer_count in
            ([msg], Raise (MFDataException msg))
          else
            ([], hs <-! build_layers s data_storage_type_list
                           default_value (Z.to_nat layer_count) 0;
                 Ok (wrap s (PerLayer hs)))
      end
  | Ok false =>
      ([], data_storage_type <-! single_storage_type data_storage_type_list;
           Ok (wrap s (AllLayers
                 (_build_layer (datum_type s) data_storage_type
                    default_value (dimension_list s) true))))
  end.

End ArrayTemplateGenerator.

(** ** [MultiListIter] *)

Module MultiListIter.

(** [self.val_iter] is the generator [next_item(multi_list)]: the
    records it has still to yield. *)
Record t : Type := {
  detailed_info : bool;
  val_iter : list trav
}.

Definition init (multi_list : value) (detailed_info : bool) : t :=
  {| detailed_info := detailed_info;
     val_iter := ArrayUtil.next_item multi_list true 0 true |}.

(** What [__next__] returns: the whole record, or its first component. *)
Inductive item : Type :=
| Detailed (record : trav)
| Plain (v : value).

(** [next_val = next(self.val_iter)] raises [StopIteration] at the end of
    the generator. *)
Definition __next__ (self : t) : result item * t :=
  match val_iter self with
  | [] => (Raise StopIteration, self)
  | next_val :: rest =>
      (Ok (if detailed_info self then Detailed next_val
           else Plain (fst (fst (fst next_val)))),
       {| detailed_info := detailed_info self; val_iter := rest |})
  end.

(** [list(it)] *)
Fixpoint collect (fuel : nat) (self : t) : option (list item * t) :=
  match fuel with
  | O => None
  | S fuel' =>
      match __next__ self with
      | (Ok x, self') =>
          match collect fuel' self' with
          | Some (xs, self'') => Some (x :: xs, self'')
          | None => None
          end
      | (Raise _, self') => Some ([], self')
      end
  end.

End MultiListIter.

(** ** [NameIter] and [PathIter] *)

Module NameIter.

Record t : Type := {
  name : string;
  iter_num : Z;
  first_not_numbered : bool
}.

Definition init (name : string) (first_not_numbered : bool) : t :=
  {| name := name; iter_num := -1; first_not_numbered := first_not_numbered |}.

Definition __next__ (self : t) : string * t :=
  let iter_num := iter_num self + 1 in
  let self' := {| name := name self; iter_num := iter_num;
                  first_not_numbered := first_not_numbered self |} in
  if (iter_num =? 0) && first_not_numbered self then (name self, self')
  else (name self +:+ "_" +:+ ArrayTemplateGenerator.str_of_int iter_num,
        self').

(** The results of the next [n] calls. *)
Fixpoint take (n : nat) (self : t) : list string :=
  match n with
  | O => []
  | S n' => let '(x, self') := __next__ self in x :: take n' self'
  end.

End NameIter.

Module PathIter.

Record t : Type := {
  path : list string;
  name_iter : NameIter.t
}.

(** [__init__]: [path[-1]] raises [IndexError] on the empty tuple. *)
Definition init (path : list string) (first_not_numbered : bool) : result t :=
  last_name <-! py_index path (-1);
  Ok {| path := path;
        name_iter := NameIter.init last_name first_not_numbered |}.

(** [self.path[0:-1] + (self.name_iter.__next__(),)] *)
Definition __next__ (self : t) : list string * t :=
  let '(x, name_iter') := NameIter.__next__ (name_iter self) in
  (removelast (path self) ++ [x],
   {| path := path self; name_iter := name_iter' |}).

Fixpoint take (n : nat) (self : t) : list (list string) :=
  match n with
  | O => []
  | S n' => let '(x, self') := __next__ self in x :: take n' self'
  end.

End PathIter.

(** ** [ListTemplateGenerator] *)

Module ListTemplateGenerator.

(** The second component of an entry of the type list: [int], [float],
    [object], or another type. *)
Inductive pytype : Type :=
| t_int
| t_float
| t_object
| t_other (type_name : string).

(** An entry of [aux_vars]: a name, or a list or tuple of names. *)
Inductive aux_item : Type :=
| AuxName (s : string)
| AuxGroup (names : list string).

Definition field : Type := aux_item * pytype.

Inductive placeholder : Type :=
| P_zero
| P_nan
| P_none.

Definition _build_template_data (type_list : list field) : list placeholder :=
  map (fun type : field =>
         match snd type with
         | t_int => P_zero
         | t_float => P_nan
         | _ => P_none
         end) type_list.

(** [mfstructure.DataType]: [empty] tests for these two members. *)
Inductive DataType : Type := list_transient | list_multiple | other_datatype.

(** A record array: its rows and its type list. *)
Record rec_array : Type := {
  rec_array_data : list (list placeholder);
  dtype : list field
}.

(** [np.rec.array(rec_array_data, type_list)]: the function looks at
    [rec_array_data[0]] to tell rows from columns, which raises
    [IndexError] when there is no row.  [numpy] also refuses a type list
    whose names are not distinct strings; the conversion of the type
    list is taken to succeed here. *)
Definition np_rec_array (rec_array_data : list (list placeholder))
    (type_list : list field) : result rec_array :=
  match rec_array_data with
  | [] => Raise IndexError
  | _ :: _ => Ok {| rec_array_data := rec_array_data; dtype := type_list |}
  end.

Inductive template : Type :=
| Table (r : rec_array)
| ByPeriod (periods : gmap Z rec_array).

(** The entries appended for [aux_vars]. *)
Definition aux_fields (aux_vars : option (list aux_item)) : list field :=
  match aux_vars with
  | None => []
  | Some vars =>
      let vars' :=
        match vars with
        | AuxGroup names :: _ => map AuxName names
        | _ => vars
        end in
      map (fun aux_var => (aux_var, t_object)) vars'
  end.

(** The type list after the aux variables, the bound names and the
    time series adjustment; [type_list] is what
    [data_storage.build_type_list(nseg=nseg)] answers. *)
Definition final_type_list (type_list : list field)
    (aux_vars : option (list aux_item)) (boundnames timeseries : bool)
    : list field :=
  let l1 := type_list ++ aux_fields aux_vars in
  let l2 := if boundnames then l1 ++ [(AuxName "boundnames", t_object)]
            else l1 in
  if timeseries then map (fun f : field => (fst f, t_object)) l2 else l2.

Definition empty (type_list : list field) (data_type : DataType)
    (maxbound : option Z) (aux_vars : option (list aux_item))
    (boundnames timeseries : bool) (stress_periods : option (list Z))
    : result template :=
  let type_list := final_type_list type_list aux_vars boundnames timeseries in
  let template_data := _build_template_data type_list in
  let rec_array_data :=
    match maxbound with
    | Some n => replicate (Z.to_nat n) template_data
    | None => [template_data]
    end in
  rec_array <-! np_rec_array rec_array_data type_list;
  match data_type with
  | other_datatype => Ok (Table rec_array)
  | _ =>
      match stress_periods with
      | None => Ok (ByPeriod {[ 0 := rec_array ]})
      | Some periods =>
          Ok (ByPeriod (fold_left (fun template stress_period =>
                                     <[stress_period := rec_array]> template)
                                  periods ∅))
      end
  end.

End ListTemplateGenerator.

(** * Reference definitions

    Written from the prose of the specification, for comparison with the
    functions above. *)

(** The direct recursive count of the scalar leaves of a tree: a sequence
    has the leaves of its elements, anything else -- the scalars [int],
    [float], [str] and [None] of the data model -- is one leaf. *)
Fixpoint count_leaves (t : value) : Z :=
  match t with
  | VList items =>
      (fix sum (l : list value) : Z :=
         match l with
         | [] => 0
         | x :: r => count_leaves x + sum r
         end) items
  | _ => 1
  end.

(** The size of a tree: 0 for [None], otherwise its scalar leaves. *)
Definition scalar_leaves (t : value) : Z :=
  match t with
  | VNone => 0
  | _ => count_leaves t
  end.

(** A word that [int] or [float] can parse. *)
Definition numeric_word (w : string) : bool :=
  match PyNum.int_of_str w, PyNum.float_of_str w with
  | Raise _, Raise _ => false
  | _, _ => true
  end.

(** The words of a line that can be keywords, lower-cased. *)
Definition keywords_of (arr_line : list string) : list string :=
  map PyStr.lower (filter (fun w => numeric_word w = false) arr_line).

(** The tokens of a line with every non-numeric token lower-cased and
    the numeric tokens left in place. *)
Definition lowered_tokens (arr_line : list string) : list string :=
  map (fun w => if numeric_word w then w else PyStr.lower w) arr_line.

(** The text of a quoted span: the pieces joined by single spaces. *)
Definition join_span (first : string) (more : list string) : string :=
  fold_left PyStr.format_pair more first.

(** A token that ends in a character, which is a quote or not. *)
Definition ends_with_quote (item : string) (b : bool) : Prop :=
  exists c, PyStr.last_char item = Some c /\ ArrayUtil.is_quote c = b.

(** The order laws of an element type that the comparison relies on. *)
Record dtype_laws {num : Type} (D : np.dtype num) : Prop := {
  ge_refl : forall x, np.isnan x = false -> np.greater_equal x x = true;
  ge_total : forall x y,
    np.isnan x = false -> np.isnan y = false ->
    np.greater_equal x y = false -> np.greater_equal y x = true;
  ge_trans : forall x y z,
    np.greater_equal x y = true -> np.greater_equal y z = true ->
    np.greater_equal x z = true;
  ge_nan : forall x y, np.isnan y = true -> np.greater_equal x y = false;
  gt_float_mono : forall x y tol,
    np.greater_equal x y = true -> np.greater_float y tol = true ->
    np.greater_float x tol = true;
  gt_float_nan : forall x tol,
    np.isnan x = true -> np.greater_float x tol = false;
  le_float_gt : forall x tol,
    np.isnan x = false -> PrimFloat.is_nan tol = false ->
    np.less_equal_float x tol = negb (np.greater_float x tol);
  eq_float_gt : forall x tol,
    np.equal_float x tol = true -> np.greater_float x tol = false
}.

(** [m] is the greatest computed [|x - y|] over corresponding elements. *)
Definition max_abs_diff {num : Type} `{!np.dtype num}
    (a b : list num) (m : num) : Prop :=
  (exists i x y, a !! i = Some x /\ b !! i = Some y
                 /\ m = np.absolute (np.sub x y))
  /\ (forall i x y, a !! i = Some x -> b !! i = Some y ->
                    np.greater_equal m (np.absolute (np.sub x y)) = true).

(** [p / 2^k] rounded to the nearest integer, ties to the even one. *)
Definition round_half_even (p k : Z) : Z :=
  let q := p / 2 ^ k in
  let r := p mod 2 ^ k in
  let h := 2 ^ (k - 1) in
  if r <? h then q
  else if r =? h then (if Z.even q then q else q + 1)
  else q + 1.

(** Exponent and mantissa of the binary64 value nearest to a positive
    integer. *)
Definition nearest_binary64 (p : positive) : Z * Z :=
  let d := Zpos (Pos.size p) in
  if d <=? 53 then (d - 53, Zpos p * 2 ^ (53 - d))
  else
    let k := d - 53 in
    let m := round_half_even (Zpos p) k in
    if m =? 2 ^ 53 then (k + 1, 2 ^ 52) else (k, m).

(** The binary64 value of sign [s] with that exponent and mantissa,
    infinite beyond the largest exponent. *)
Definition binary64_of (s : bool) (em : Z * Z) : spec_float :=
  if em.1 <=? 971 then S754_finite s (Z.to_pos em.2) em.1
  else S754_infinity s.

(** The loop of [next_item] over the items of one list of length [len],
    as a function of its own. *)
Definition next_items (len : Z) : list value -> Z -> Z -> list trav :=
  fix loop (rest : list value) (list_size nesting_change : Z)
      {struct rest} : list trav :=
    match rest with
    | [] => []
    | item :: rest' =>
        if isinstance_list item then
          ArrayUtil.next_item item (list_size =? 1) (nesting_change + 1)
                              (list_size =? len)
          ++ loop rest' (list_size + 1) (- (nesting_change + 1))
        else
          (item, list_size =? len, list_size =? 1, nesting_change)
          :: loop rest' (list_size + 1) 0
    end.

(** The leaves of the elements of a sequence. *)
Definition sum_leaves : list value -> Z :=
  fix sum (l : list value) : Z :=
    match l with
    | [] => 0
    | x :: r => count_leaves x + sum r
    end.

(** The all-zero coordinate of a shape. *)
Definition zeros (shape : list Z) : list Z := map (fun _ => 0) shape.

(** The coordinate that follows [loc] in row-major order: advance the
    axes to the right if they can advance, otherwise advance this axis
    and reset the axes to its right. *)
Fixpoint succ_loc (shape loc : list Z) : option (list Z) :=
  match shape, loc with
  | n :: shape', i :: loc' =>
      match succ_loc shape' loc' with
      | Some r => Some (i :: r)
      | None => if i <? n - 1 then Some ((i + 1) :: zeros shape') else None
      end
  | _, _ => None
  end.

(** [chain shape loc L]: [L] lists [loc] and its successors up to the
    coordinate that has none. *)
Inductive chain (shape : list Z) : list Z -> list (list Z) -> Prop :=
| chain_last (loc : list Z) :
    succ_loc shape loc = None -> chain shape loc [loc]
| chain_step (loc loc' : list Z) (L : list (list Z)) :
    succ_loc shape loc = Some loc' ->
    chain shape loc' L ->
    chain shape loc (loc :: L).

(** An iterator that has handed out its first item. *)
Definition running (shape loc : list Z) (index : Z) : ArrayIndexIter.t :=
  {| ArrayIndexIter.array_shape := shape;
     ArrayIndexIter.current_location := loc;
     ArrayIndexIter.first_item := false;
     ArrayIndexIter.current_index := index |}.

(** The scalar leaves of a tree, depth first and left to right. *)
Fixpoint flatten (t : value) : list value :=
  match t with
  | VList items =>
      (fix go (l : list value) : list value :=
         match l with
         | [] => []
         | x :: r => flatten x ++ go r
         end) items
  | _ => [t]
  end.

Definition flatten_items : list value -> list value :=
  fix go (l : list value) : list value :=
    match l with
    | [] => []
    | x :: r => flatten x ++ go r
    end.

(** The first component of a traversal record. *)
Definition trav_item (record : trav) : value := fst (fst (fst record)).

(** No list in the tree is empty. *)
Fixpoint no_empty_list (t : value) : bool :=
  match t with
  | VList items =>
      match items with
      | [] => false
      | _ =>
          (fix all (l : list value) : bool :=
             match l with
             | [] => true
             | x :: r => no_empty_list x && all r
             end) items
      end
  | _ => true
  end.

(** A string without its leading, respectively trailing, characters that
    are not numeric. *)
Fixpoint ltrim_numeric (s : string) : string :=
  match s with
  | EmptyString => EmptyString
  | String c r => if ArrayUtil.numeric_chars c then s else ltrim_numeric r
  end.

Fixpoint rtrim_numeric (s : string) : string :=
  match s with
  | EmptyString => EmptyString
  | String c r =>
      match rtrim_numeric r with
      | EmptyString =>
          if ArrayUtil.numeric_chars c then String c EmptyString
          else EmptyString
      | r' => String c r'
      end
  end.

(** Every character of a string passes a test. *)
Fixpoint all_chars (p : ascii -> bool) (s : string) : bool :=
  match s with
  | EmptyString => true
  | String c r => p c && all_chars p r
  end.

(** [' '.join(fields)] *)
Fixpoint join_spaces (fields : list string) : string :=
  match fields with
  | [] => EmptyString
  | [f] => f
  | f :: rest => f +:+ " " +:+ join_spaces rest
  end.

(** A field that survives a trip through a line: not empty, free of
    whitespace, not opening with a quote and not a lone comma. *)
Definition plain_field (f : string) : Prop :=
  f <> EmptyString
  /\ all_chars (fun c => negb (PyStr.isspace c)) f = true
  /\ (forall c, ArrayUtil.first_char f = Some c -> ArrayUtil.is_quote c = false)
  /\ f <> ",".

(** The [k]-th name of a [NameIter]. *)
Definition nth_name (name : string) (first_not_numbered : bool) (k : Z) : string :=
  if (k =? 0) && first_not_numbered then name
  else name +:+ "_" +:+ ArrayTemplateGenerator.str_of_int k.

(** A type list that [numpy] accepts as the fields of a record array:
    there is a field, the names are strings that are not empty, and no
    name occurs twice. *)
Definition distinct_names (type_list : list ListTemplateGenerator.field)
    : Prop :=
  type_list <> []
  /\ Forall (fun f : ListTemplateGenerator.field =>
               exists s, f.1 = ListTemplateGenerator.AuxName s /\ s <> "")
            type_list
  /\ NoDup (map fst type_list).

(** * Properties *)

(** ** The numeric token classifier *)

Section Classifier.
Import PyNum DatumUtil.

Lemma int_of_str_cases (s : string) :
  (exists z, int_of_str s = Ok z) \/ int_of_str s = Raise ValueError.
Proof.
  unfold int_of_str.
  destruct (strip_sign (strip_c s)) as [neg body].
  destruct (digitpart 0 0 body) as [[[v n] rest]|]; [|by right].
  destruct rest; [left; eauto | by right].
Qed.

Lemma float_of_str_cases (s : string) :
  (exists f, float_of_str s = Ok f) \/ float_of_str s = Raise ValueError.
Proof.
  unfold float_of_str.
  destruct (strip_sign (strip_c s)) as [neg body].
  destruct (_ || _); [left; eauto|].
  destruct (String.eqb _ _); [left; eauto|].
  destruct (decimal body) as [[m e]|]; [left; eauto | by right].
Qed.

Lemma try_convert_Ok {A} (c : result A) (b : bool) :
  try_convert c = Ok b -> (b = true <-> exists a, c = Ok a).
Proof.
  destruct c as [a|e]; simpl.
  - intros [= <-]. split; eauto.
  - destruct e; intros [= <-]; (split; [done | intros [a [=]]]).
Qed.

Lemma int_literal_is_float_literal (s : string) (z : Z) :
  int_of_str s = Ok z -> exists f, float_of_str s = Ok f.
Proof.
  unfold int_of_str, float_of_str.
  destruct (strip_sign (strip_c s)) as [neg body].
  destruct (digitpart 0 0 body) as [[[v n] rest]|] eqn:Hd; [|done].
  destruct rest; [intros _|done].
  destruct (_ || _); [eauto|].
  destruct (String.eqb _ _); [eauto|].
  unfold decimal. rewrite Hd. simpl. eauto.
Qed.

End Classifier.

(** C6.  On every token -- a string or [None] -- [is_int] and [is_float]
    return a boolean and raise nothing: the boolean is [True] exactly when
    [int(token)], respectively [float(token)], succeeds, and the
    [TypeError] or [ValueError] of a failed conversion is turned into
    [False].  Both functions are pure: they read no state and return
    only their verdict. *)
Theorem classifiers_never_raise (tok : token) :
  (exists b, DatumUtil.is_int tok = Ok b
             /\ (b = true <-> exists z, DatumUtil.py_int tok = Ok z))
  /\ (exists b, DatumUtil.is_float tok = Ok b
                /\ (b = true <-> exists f, DatumUtil.py_float tok = Ok f)).
Proof.
  split.
  - assert (exists b, DatumUtil.is_int tok = Ok b) as [b Hb].
    { unfold DatumUtil.is_int. destruct tok as [|s]; simpl; [eauto|].
      destruct (int_of_str_cases s) as [[z ->]| ->]; simpl; eauto. }
    exists b. split; [done|]. by apply try_convert_Ok.
  - assert (exists b, DatumUtil.is_float tok = Ok b) as [b Hb].
    { unfold DatumUtil.is_float. destruct tok as [|s]; simpl; [eauto|].
      destruct (float_of_str_cases s) as [[z ->]| ->]; simpl; eauto. }
    exists b. split; [done|]. by apply try_convert_Ok.
Qed.

(** C10.  The classifiers are nested on strings: every string that
    [is_int] accepts is accepted by [is_float], and the converse fails,
    for instance at ['1.5']. *)
Theorem is_int_implies_is_float :
  (forall s : string,
      DatumUtil.is_int (TokStr s) = Ok true ->
      DatumUtil.is_float (TokStr s) = Ok true)
  /\ DatumUtil.is_float (TokStr "1.5") = Ok true
  /\ DatumUtil.is_int (TokStr "1.5") = Ok false.
Proof.
  split; [|split; reflexivity].
  intros s Hi.
  apply try_convert_Ok in Hi. destruct Hi as [Hi _].
  destruct (Hi eq_refl) as [z Hz]. simpl in Hz.
  destruct (int_literal_is_float_literal s z Hz) as [f Hf].
  unfold DatumUtil.is_float. simpl. by rewrite Hf.
Qed.

Lemma is_int_implies_is_float_witness :
  DatumUtil.is_int (TokStr " +1_000 ") = Ok true
  /\ DatumUtil.is_float (TokStr " +1_000 ") = Ok true.
Proof.
  split; [reflexivity|].
  apply (proj1 is_int_implies_is_float " +1_000 "). reflexivity.
Defined.

(** ** [has_one_item] *)

(** C9.  [has_one_item] on every tree: a bare scalar gives [True], a
    sequence of any length but one gives [False], a one-element sequence
    of a scalar gives [True]; a one-element sequence whose element is a
    sequence raises [TypeError], because [len] is applied to the boolean
    [current_list[0] != 0]. *)
Theorem has_one_item_cases (t : value) :
  ArrayUtil.has_one_item t =
    match t with
    | VList [VList _] => Raise TypeError
    | VList [_] => Ok true
    | VList _ => Ok false
    | _ => Ok true
    end.
Proof.
  destruct t as [| | | | |items]; try reflexivity.
  destruct items as [|x [|y rest]].
  - reflexivity.
  - destruct x; reflexivity.
  - unfold ArrayUtil.has_one_item.
    replace (Z.of_nat (length (x :: y :: rest)) =? 1) with false;
      [by destruct x|].
    symmetry. apply Z.eqb_neq. simpl length. lia.
Qed.

(** ** [ArrayTemplateGenerator.empty] *)

Section Template.
Import ArrayTemplateGenerator.

(** C7, as stated, fails: without [layered] the size of the list is
    not looked at.  Three storage kinds for a field of two layers give
    a template and print nothing. *)
Lemma empty_unlayered_wrong_size_returns :
  let s := {| dimension_list := [2; 3]; datum_type := np_float;
              data_type := other_datatype |} in
  let l := [internal_array; internal_array; internal_array] in
  py_index (dimension_list s) 0 = Ok 2
  /\ Z.of_nat (length l) <> 2
  /\ empty s false (Some l) None
     = ([], Ok (Plain (AllLayers
                  (HInternal 1 1 (DArray (np_empty [2; 3] np_float)))))).
Proof. repeat split. simpl. lia. Qed.

(** C7, amended.  When [layered] is set, the field has more than one
    layer and the list of storage kinds has another length than the
    layer count, [empty] prints the diagnostic and raises
    [MFDataException] with the same text; no template is returned. *)
Theorem empty_layered_wrong_size_raises (s : schema)
    (l : list DataStorageType) (default_value : option value)
    (layer_count : Z) :
  py_index (dimension_list s) 0 = Ok layer_count ->
  1 < layer_count ->
  Z.of_nat (length l) <> layer_count ->
  empty s true (Some l) default_value
  = ([except_str (Z.of_nat (length l)) layer_count],
     Raise (MFDataException (except_str (Z.of_nat (length l)) layer_count))).
Proof.
  intros Hd Hgt Hne. unfold empty. rewrite Hd. simpl.
  replace (1 <? layer_count) with true by (symmetry; apply Z.ltb_lt; lia).
  replace (Z.of_nat (length l) =? layer_count) with false
    by (symmetry; by apply Z.eqb_neq).
  reflexivity.
Qed.

Lemma empty_layered_wrong_size_raises_witness :
  exists msg,
    empty {| dimension_list := [3; 4; 5]; datum_type := np_int;
             data_type := array_transient |}
          true (Some [internal_array; external_file]) (Some (VInt 7))
    = ([msg], Raise (MFDataException msg)).
Proof.
  eexists.
  apply (empty_layered_wrong_size_raises
           {| dimension_list := [3; 4; 5]; datum_type := np_int;
              data_type := array_transient |}
           [internal_array; external_file] (Some (VInt 7)) 3).
  - reflexivity.
  - lia.
  - simpl. lia.
Defined.

End Template.

(** ** [split_data_line] *)

Section Tokenizer.
Import PyStr ArrayUtil.

(** *** The choice of the delimiter *)

Lemma try_delimiter_fst (line : string) (st : nat * option ascii) (d : ascii) :
  fst (try_delimiter line st d)
  = Nat.max (fst st) (length (split_on d (strip line))).
Proof.
  unfold try_delimiter.
  destruct (Nat.ltb_spec (fst st) (length (split_on d (strip line))));
    simpl; lia.
Qed.

(** The state of the trial after some delimiters: the best size seen,
    and the delimiter that reached it, if one beat the whitespace
    split. *)
Definition trial_inv (line : string) (tried : list ascii)
    (st : nat * option ascii) : Prop :=
  let base := length (split_ws (strip line)) in
  let fields d := length (split_on d (strip line)) in
  (forall d, In d tried -> fields d <= fst st)%nat
  /\ match snd st with
     | None => fst st = base
     | Some d => In d tried /\ fst st = fields d /\ (base < fields d)%nat
     end.

Lemma trial_inv_step (line : string) (tried : list ascii)
    (st : nat * option ascii) (d : ascii) :
  trial_inv line tried st ->
  trial_inv line (tried ++ [d]) (try_delimiter line st d).
Proof.
  intros [Hmax Hsel]. split.
  - intros d' Hd'. rewrite try_delimiter_fst.
    apply in_app_or in Hd'. destruct Hd' as [Hd'|[<-|[]]].
    + specialize (Hmax d' Hd'). lia.
    + lia.
  - unfold try_delimiter.
    destruct (Nat.ltb_spec (fst st) (length (split_on d (strip line))))
      as [Hlt|Hge]; simpl.
    + split; [apply in_or_app; right; by left|]. split; [done|].
      destruct (snd st) as [d0|]; [destruct Hsel as (_ & ? & ?)|]; lia.
    + destruct (snd st) as [d0|]; [|done].
      destruct Hsel as (Hin & ? & ?). split; [|done].
      apply in_or_app. by left.
Qed.

Lemma trial_inv_all (line : string) :
  trial_inv line delimiter_list
    (fold_left (try_delimiter line) delimiter_list
       (length (split_ws (strip line)), None)).
Proof.
  assert (trial_inv line [] (length (split_ws (strip line)), None)) as H0.
  { split; [intros d []|reflexivity]. }
  unfold delimiter_list. simpl fold_left.
  apply (trial_inv_step line [","%char; tab]).
  apply (trial_inv_step line [","%char]).
  by apply (trial_inv_step line []).
Qed.

End Tokenizer.

(** C4.  With [external_file] the trimmed line is also split on the
    comma, the tab and the single space.  The fields kept are those of
    the whitespace split when no delimiter gives more fields than it, and
    otherwise those of a delimiter that gives more fields than the
    whitespace split and at least as many as every other delimiter.
    ['1,2,,3'] is split on the comma into four fields, one of them
    empty. *)
Theorem external_file_delimiter_choice (line : string) :
  let trimmed := PyStr.strip line in
  let base := PyStr.split_ws trimmed in
  let fields d := length (PyStr.split_on d trimmed) in
  ((ArrayUtil.choose_split line true = base
    /\ forall d, In d ArrayUtil.delimiter_list -> (fields d <= length base)%nat)
   \/ (exists d, In d ArrayUtil.delimiter_list
         /\ ArrayUtil.choose_split line true = PyStr.split_on d trimmed
         /\ (length base < fields d)%nat
         /\ forall d', In d' ArrayUtil.delimiter_list ->
                       (fields d' <= fields d)%nat))
  /\ ArrayUtil.choose_split "1,2,,3" true = PyStr.split_on ","%char "1,2,,3"
  /\ ArrayUtil.split_data_line "1,2,,3" true = Ok ["1"; "2"; ""; "3"].
Proof.
  intros trimmed base fields. split; [|split; reflexivity].
  pose proof (trial_inv_all line) as [Hmax Hsel].
  unfold ArrayUtil.choose_split.
  destruct (fold_left _ _ _) as [size sel]. simpl in Hmax, Hsel.
  destruct sel as [d|].
  - right. exists d. destruct Hsel as (Hin & Hsize & Hlt).
    repeat split; [done| |].
    + subst fields base trimmed. simpl. lia.
    + intros d' Hd'. specialize (Hmax d' Hd'). subst fields trimmed.
      simpl. lia.
  - left. split; [done|]. intros d Hd. specialize (Hmax d Hd).
    subst fields base trimmed. simpl. lia.
Qed.

Section Quotes.
Import PyStr ArrayUtil.

Lemma is_quote_cases (c : ascii) :
  is_quote c = true -> c = squote \/ c = dquote.
Proof.
  unfold is_quote, quote_list. simpl.
  destruct (Ascii.eqb_spec c squote); [by left|].
  destruct (Ascii.eqb_spec c dquote); [by right|done].
Qed.

Lemma quote_not_delimiter (c : ascii) (body : string) :
  is_quote c = true -> is_delimiter (String c body) = false.
Proof.
  intros [-> | ->]%is_quote_cases; by destruct body.
Qed.


Lemma join_span_snoc (first : string) (more : list string) (x : string) :
  join_span first (more ++ [x]) = format_pair (join_span first more) x.
Proof. unfold join_span. by rewrite fold_left_app. Qed.



(** The outer loop at a token that opens a quote and does not close it. *)
Lemma fix_quotes_opening (q : ascii) (body : string) (rest arr : list string) :
  is_quote q = true ->
  ends_with_quote (String q body) false ->
  fix_quotes (String q body :: rest) arr = open_quote rest (arr ++ [body]).
Proof.
  intros Hq (c & Hc & Hcq).
  cbn [fix_quotes]. rewrite (quote_not_delimiter q body Hq).
  cbn [negb]. by rewrite Hq, Hc, Hcq.
Qed.

(** *** No exception on the whitespace split *)

Lemma cons_nonempty_Forall (P : string -> Prop) (tok : string) (toks : list string) :
  (tok <> EmptyString -> P tok) -> Forall P toks ->
  Forall P (cons_nonempty tok toks).
Proof.
  intros Ht Hs. destruct tok; [done|]. simpl. constructor; [by apply Ht|done].
Qed.

Lemma split_ws_aux_nonempty (s : string) :
  Forall (fun t => t <> EmptyString) (split_ws_aux s).2.
Proof.
  induction s as [|c s IH]; simpl; [constructor|].
  destruct (split_ws_aux s) as [tok toks]. simpl in IH.
  destruct (isspace c); simpl; [|done].
  by apply cons_nonempty_Forall.
Qed.

Lemma split_ws_nonempty (s : string) :
  Forall (fun t => t <> EmptyString) (split_ws s).
Proof.
  unfold split_ws. pose proof (split_ws_aux_nonempty s) as H.
  destruct (split_ws_aux s) as [tok toks]. by apply cons_nonempty_Forall.
Qed.

Lemma last_char_nonempty (s : string) :
  s <> EmptyString -> exists c, last_char s = Some c.
Proof.
  induction s as [|c s IH]; [done|]. intros _.
  destruct s as [|d s]; [by exists c|].
  destruct IH as [e He]; [done|]. exists e. exact He.
Qed.

Lemma set_last_nonempty (arr : list string) (new : string) :
  arr <> [] -> set_last arr new <> [].
Proof. destruct arr as [|x [|y arr]]; done. Qed.

Lemma loops_total (clean_line : list string) :
  Forall (fun t => t <> EmptyString) clean_line ->
  forall arr,
    (exists fields, fix_quotes clean_line arr = Ok fields)
    /\ (arr <> [] -> exists fields, open_quote clean_line arr = Ok fields).
Proof.
  induction 1 as [|item rest Hitem Hrest IH]; intros arr.
  - split; simpl; eauto.
  - destruct (last_char_nonempty item Hitem) as [l Hl]. split.
    + cbn [fix_quotes]. destruct (negb (is_delimiter item)); [|apply IH].
      destruct item as [|c body]; [done|].
      destruct (is_quote c); [|apply IH].
      rewrite Hl. destruct (is_quote l); [apply IH|].
      apply IH. by destruct arr.
    + intros Harr. cbn [open_quote]. rewrite Hl.
      destruct (last arr) as [field|] eqn:Hlast.
      * destruct (is_quote l); [apply IH|].
        apply IH. by apply set_last_nonempty.
      * by apply last_None in Hlast.
Qed.

Lemma split_data_line_default_total (line : string) :
  exists fields, split_data_line line false = Ok fields.
Proof.
  unfold split_data_line, choose_split.
  by apply loops_total, split_ws_nonempty.
Qed.

End Quotes.



(** ** [find_keyword] *)

Section Keywords.
Context {V : Type}.
Implicit Types (d : gmap (list string) V) (words key : list string).

Lemma is_int_numeric_word (w : string) :
  DatumUtil.is_int (TokStr w) = Ok true -> numeric_word w = true.
Proof.
  intros H. apply try_convert_Ok in H. destruct H as [H _].
  destruct (H eq_refl) as [z Hz]. simpl in Hz.
  unfold numeric_word. by rewrite Hz.
Qed.

(** The first loop keeps the words that are no numbers, lower-cased. *)
Lemma lower_words_spec (arr_line : list string) :
  lower_words arr_line = Ok (keywords_of arr_line).
Proof.
  induction arr_line as [|w rest IH]; [done|].
  unfold keywords_of in *. simpl lower_words. rewrite IH.
  unfold DatumUtil.is_int, DatumUtil.is_float, numeric_word. simpl.
  destruct (int_of_str_cases w) as [[z Hz]| Hz]; rewrite Hz; simpl.
  - rewrite filter_cons_False; [done|].
    unfold numeric_word. by rewrite Hz.
  - destruct (float_of_str_cases w) as [[f Hf]| Hf]; rewrite Hf; simpl.
    + rewrite filter_cons_False; [done|].
      unfold numeric_word. by rewrite Hz, Hf.
    + rewrite filter_cons_True; [done|].
      unfold numeric_word. by rewrite Hz, Hf.
Qed.

Definition matches d key : Prop := key <> [] /\ is_Some (d !! key).

Lemma search_key_unfold words d (n : nat) :
  search_key words d n
  = if (0 <? length (take n words))%nat
       && bool_decide (is_Some (d !! take n words))
    then Some (take n words)
    else match n with
         | O => None
         | S n' => search_key words d n'
         end.
Proof. by destruct n. Qed.

Lemma test_matches words d (n : nat) :
  (0 <? length (take n words))%nat
  && bool_decide (is_Some (d !! take n words)) = true
  <-> matches d (take n words).
Proof.
  unfold matches. rewrite andb_true_iff, bool_decide_eq_true, Nat.ltb_lt.
  split; intros [H1 H2]; split; try done.
  - intros E. rewrite E in H1. simpl in H1. lia.
  - destruct (take n words); [done|simpl; lia].
Qed.

(** The search returns the first match, counting down from [n]. *)
Lemma search_key_Some words d (n : nat) key :
  search_key words d n = Some key ->
  exists m, (m <= n)%nat /\ key = take m words /\ matches d key
            /\ forall m', (m < m' <= n)%nat -> ~ matches d (take m' words).
Proof.
  induction n as [|n IH]; rewrite search_key_unfold;
    destruct (_ && _) eqn:Ht.
  - intros [= <-]. exists 0%nat.
    split; [lia|]. split; [done|]. split; [by apply test_matches|lia].
  - done.
  - intros [= <-]. exists (S n).
    split; [lia|]. split; [done|]. split; [by apply test_matches|lia].
  - intros H. destruct (IH H) as (m & Hm & -> & Hmatch & Habove).
    exists m. split; [lia|]. split; [done|]. split; [done|].
    intros m' Hm' Hmm.
    destruct (decide (m' = S n)) as [->|Hne].
    + apply test_matches in Hmm. congruence.
    + apply (Habove m'); [lia|done].
Qed.

Lemma search_key_None words d (n : nat) :
  search_key words d n = None ->
  forall m, (m <= n)%nat -> ~ matches d (take m words).
Proof.
  induction n as [|n IH]; rewrite search_key_unfold;
    destruct (_ && _) eqn:Ht; try done.
  - intros _ m Hm Hmm. replace m with 0%nat in Hmm by lia.
    apply test_matches in Hmm. congruence.
  - intros H m Hm Hmm.
    destruct (decide (m = S n)) as [->|Hne].
    + apply test_matches in Hmm. congruence.
    + apply (IH H m); [lia|done].
Qed.

Lemma prefix_is_take key words :
  key `prefix_of` words ->
  key = take (length key) words /\ (length key <= length words)%nat.
Proof.
  intros [rest ->]. rewrite take_app_length, length_app. split; [done|lia].
Qed.

Lemma find_keyword_eq (arr_line : list string) d :
  find_keyword arr_line d
  = Ok (search_key (keywords_of arr_line) d (length (keywords_of arr_line))).
Proof. unfold find_keyword. by rewrite lower_words_spec. Qed.

End Keywords.

(** C5, as stated, fails: numeric tokens are not kept in the sequence
    that is searched, they are left out.  For the tokens ['1',
    'constant'] no prefix of the token list is a key, and yet the key
    [('constant',)] is returned, which is no prefix of the tokens. *)
Lemma find_keyword_skips_numeric_tokens :
  let d : gmap (list string) unit := {[ ["constant"] := tt ]} in
  let arr_line := ["1"; "constant"] in
  find_keyword arr_line d = Ok (Some ["constant"])
  /\ lowered_tokens arr_line = ["1"; "constant"]
  /\ ~ ["constant"] `prefix_of` lowered_tokens arr_line
  /\ forall k, k <> [] -> k `prefix_of` lowered_tokens arr_line -> d !! k = None.
Proof.
  intros d arr_line.
  assert (lowered_tokens arr_line = ["1"; "constant"]) as E by reflexivity.
  split; [reflexivity|]. split; [done|]. rewrite E. split.
  - intros [rest [=]].
  - intros k Hk [rest Hrest]. subst d.
    destruct k as [|a [|b [|c k]]]; [done| | |].
    + injection Hrest as <- _. by apply lookup_singleton_ne.
    + injection Hrest as <- <- _. by apply lookup_singleton_ne.
    + destruct rest; discriminate Hrest || (simpl in Hrest; congruence).
Qed.

(** C5, amended.  [find_keyword] drops the tokens that [int] or [float]
    can parse and lower-cases the others; on the sequence of words that
    remains it returns the longest non-empty prefix that is a key of the
    dictionary, trying the lengths in decreasing order, and [None] when no
    non-empty prefix of it is a key.  [find_keyword(['CONSTANT', '1.0'],
    {('constant',): KEY})] is [('constant',)]. *)
Theorem find_keyword_longest_prefix {V : Type} (arr_line : list string)
    (keyword_dict : gmap (list string) V) :
  let words := keywords_of arr_line in
  ((find_keyword arr_line keyword_dict = Ok None
    /\ forall k, k <> [] -> k `prefix_of` words -> keyword_dict !! k = None)
   \/ (exists key,
          find_keyword arr_line keyword_dict = Ok (Some key)
          /\ key <> [] /\ key `prefix_of` words
          /\ is_Some (keyword_dict !! key)
          /\ forall k, k <> [] -> k `prefix_of` words ->
                       is_Some (keyword_dict !! k) ->
                       (length k <= length key)%nat))
  /\ forall KEY : V,
       find_keyword ["CONSTANT"; "1.0"] {[ ["constant"] := KEY ]}
       = Ok (Some ["constant"]).
Proof.
  intros words. split.
  - rewrite find_keyword_eq. fold words.
    destruct (search_key words keyword_dict (length words)) as [key|] eqn:Hs.
    + right. exists key.
      apply search_key_Some in Hs.
      destruct Hs as (m & Hm & -> & [Hne Hin] & Habove).
      repeat split; [done| apply prefix_take |done|].
      intros k Hk Hpre Hk_in.
      destruct (prefix_is_take k words Hpre) as [Ek Hlen].
      rewrite length_take, Nat.min_l by lia.
      destruct (decide (length k <= m)%nat) as [|Hgt]; [done|].
      exfalso. apply (Habove (length k)); [lia|].
      rewrite <- Ek. by split.
    + left. split; [done|]. intros k Hk Hpre.
      destruct (prefix_is_take k words Hpre) as [Ek Hlen].
      pose proof (search_key_None _ _ _ Hs (length k) Hlen) as Hno.
      rewrite <- Ek in Hno.
      destruct (keyword_dict !! k) eqn:Hl; [|done].
      exfalso. apply Hno. split; [done|]. rewrite Hl. eauto.
  - intros KEY. rewrite find_keyword_eq.
    change (keywords_of ["CONSTANT"; "1.0"]) with ["constant"].
    rewrite search_key_unfold. simpl take. simpl length.
    rewrite lookup_singleton_eq.
    rewrite bool_decide_eq_true_2 by eauto. reflexivity.
Qed.

(** ** [array_comp] *)

(** *** The conversion of an [int64] to binary64 *)

Section Conversion.

Lemma digits2_size (p : positive) : digits2_pos p = Pos.size p.
Proof. induction p; simpl; congruence. Qed.

Lemma size_bounds (p : positive) :
  2 ^ (Zpos (Pos.size p) - 1) <= Zpos p < 2 ^ Zpos (Pos.size p).
Proof.
  induction p as [p IH|p IH|]; cbn [Pos.size].
  - rewrite Pos2Z.inj_succ.
    replace (Z.succ (Z.pos (Pos.size p)) - 1)
      with (Z.succ (Z.pos (Pos.size p) - 1)) by lia.
    rewrite !Z.pow_succ_r by lia. lia.
  - rewrite Pos2Z.inj_succ.
    replace (Z.succ (Z.pos (Pos.size p)) - 1)
      with (Z.succ (Z.pos (Pos.size p) - 1)) by lia.
    rewrite !Z.pow_succ_r by lia. lia.
  - simpl. lia.
Qed.

Lemma iter_pos_nat {A} (f : A -> A) (n : positive) (x : A) :
  SpecFloat.iter_pos f n x = Nat.iter (Pos.to_nat n) f x.
Proof.
  revert x. induction n as [n IH|n IH|]; intros x; cbn [SpecFloat.iter_pos].
  - rewrite !IH. rewrite Pos2Nat.inj_xI.
    replace (2 * Pos.to_nat n)%nat with (Pos.to_nat n + Pos.to_nat n)%nat
      by lia.
    rewrite Nat.iter_succ_r, Nat.iter_add. reflexivity.
  - rewrite !IH. rewrite Pos2Nat.inj_xO.
    replace (2 * Pos.to_nat n)%nat with (Pos.to_nat n + Pos.to_nat n)%nat
      by lia.
    rewrite Nat.iter_add. reflexivity.
  - reflexivity.
Qed.

Lemma shr_1_spec (m : Z) (r s : bool) :
  0 <= m ->
  shr_1 {| shr_m := m; shr_r := r; shr_s := s |}
  = {| shr_m := m / 2; shr_r := Z.odd m; shr_s := r || s |}.
Proof.
  intros Hm. destruct m as [|p|p]; [reflexivity| |lia].
  destruct p as [p|p|]; simpl.
  - f_equal. rewrite Pos2Z.inj_xI. apply Z.div_unique with 1; lia.
  - f_equal. rewrite Pos2Z.inj_xO. apply Z.div_unique with 0; lia.
  - reflexivity.
Qed.

(** After k+1 halvings *)
Lemma shr_iter (p : Z) (k : nat) :
  0 <= p ->
  Nat.iter (S k) shr_1 {| shr_m := p; shr_r := false; shr_s := false |}
  = {| shr_m := p / 2 ^ Z.of_nat (S k);
       shr_r := Z.testbit p (Z.of_nat k);
       shr_s := negb (p mod 2 ^ Z.of_nat k =? 0) |}.
Proof.
  intros Hp. induction k as [|k IH].
  - rewrite Nat.iter_succ. change (Nat.iter 0 shr_1 ?x) with x.
    rewrite shr_1_spec by done. apply f_equal3.
    + reflexivity.
    + symmetry. apply Z.bit0_odd.
    + change (2 ^ Z.of_nat 0) with 1. rewrite Z.mod_1_r. reflexivity.
  - rewrite Nat.iter_succ, IH. rewrite shr_1_spec by (apply Z.div_pos; lia).
    apply f_equal3.
    + rewrite Z.div_div by lia. f_equal.
      rewrite (Nat2Z.inj_succ (S k)), Z.pow_succ_r by lia. lia.
    + rewrite (Z.testbit_odd p (Z.of_nat (S k))), Z.shiftr_div_pow2 by lia.
      reflexivity.
    + rewrite (Nat2Z.inj_succ k), Z.pow_succ_r by lia.
      rewrite (Z.mul_comm 2), Z.rem_mul_r by lia.
      assert (Z.testbit p (Z.of_nat k) = Z.odd (p / 2 ^ Z.of_nat k)) as ->
        by (rewrite Z.testbit_odd, Z.shiftr_div_pow2 by lia; reflexivity).
      pose proof (Z.mod_pos_bound p (2 ^ Z.of_nat k) ltac:(lia)) as Hr.
      pose proof (Z.pow_pos_nonneg 2 (Z.of_nat k) ltac:(lia) ltac:(lia))
        as Hpow.
      rewrite (Zmod_odd (p / 2 ^ Z.of_nat k)).
      destruct (Z.odd _); simpl.
      * symmetry. apply negb_true_iff, Z.eqb_neq. lia.
      * rewrite Z.mul_0_r, Z.add_0_r. reflexivity.
Qed.

Lemma round_shr (p : Z) (k : positive) :
  0 <= p ->
  let mrs := SpecFloat.iter_pos shr_1 k
               {| shr_m := p; shr_r := false; shr_s := false |} in
  shr_m mrs = p / 2 ^ Zpos k
  /\ round_nearest_even (shr_m mrs) (loc_of_shr_record mrs)
     = round_half_even p (Zpos k).
Proof.
  intros Hp mrs. subst mrs. rewrite iter_pos_nat.
  destruct (Pos.to_nat k) as [|j] eqn:E; [lia|].
  rewrite shr_iter by done.
  replace (Z.of_nat (S j)) with (Zpos k) by lia.
  replace (Z.of_nat j) with (Zpos k - 1) by lia.
  split; [reflexivity|]. cbn [shr_m]. unfold round_half_even.
  assert (Zpos k = Z.succ (Zpos k - 1)) as Hk by lia.
  assert (p mod 2 ^ Zpos k
          = p mod 2 ^ (Zpos k - 1)
            + 2 ^ (Zpos k - 1) * ((p / 2 ^ (Zpos k - 1)) mod 2)) as Hr.
  { rewrite Hk at 1. rewrite Z.pow_succ_r by lia.
    rewrite (Z.mul_comm 2), Z.rem_mul_r by lia. reflexivity. }
  assert (Z.testbit p (Zpos k - 1) = Z.odd (p / 2 ^ (Zpos k - 1))) as ->
    by (rewrite Z.testbit_odd, Z.shiftr_div_pow2 by lia; reflexivity).
  rewrite (Zmod_odd (p / 2 ^ (Zpos k - 1))) in Hr.
  pose proof (Z.mod_pos_bound p (2 ^ (Zpos k - 1)) ltac:(lia)) as Hb.
  pose proof (Z.pow_pos_nonneg 2 (Zpos k - 1) ltac:(lia) ltac:(lia)) as Hpow.
  cbv zeta. rewrite Hr.
  destruct (Z.odd (p / 2 ^ (Zpos k - 1))).
  - replace (_ <? _) with false by (symmetry; apply Z.ltb_ge; lia).
    destruct (Z.eqb_spec (p mod 2 ^ (Zpos k - 1)) 0) as [E0|E0]; simpl.
    + rewrite E0.
      replace (_ =? _) with true by (symmetry; apply Z.eqb_eq; lia).
      reflexivity.
    + replace (_ =? _) with false by (symmetry; apply Z.eqb_neq; lia).
      reflexivity.
  - replace (_ <? _) with true by (symmetry; apply Z.ltb_lt; lia).
    by destruct (_ =? 0).
Qed.

Lemma zdigits (p : positive) : Zdigits2 (Zpos p) = Zpos (Pos.size p).
Proof. simpl. by rewrite digits2_size. Qed.

Lemma size_unique (p : positive) (n : Z) :
  2 ^ (n - 1) <= Zpos p < 2 ^ n -> Zpos (Pos.size p) = n.
Proof.
  intros [Hlo Hhi]. pose proof (size_bounds p) as [Hlo' Hhi'].
  destruct (Z.lt_trichotomy (Zpos (Pos.size p)) n) as [H|[H|H]]; [|done|].
  - assert (2 ^ Zpos (Pos.size p) <= 2 ^ (n - 1))
      by (apply Z.pow_le_mono_r; lia). lia.
  - assert (n < 0 \/ 0 <= n) as [Hn|Hn] by lia.
    + rewrite Z.pow_neg_r in Hhi by done. lia.
    + assert (2 ^ n <= 2 ^ (Zpos (Pos.size p) - 1))
        by (apply Z.pow_le_mono_r; lia). lia.
Qed.

Lemma iter_xO (p n : positive) :
  Zpos (PosDef.Pos.iter xO p n) = Zpos p * 2 ^ Zpos n.
Proof.
  change (PosDef.Pos.iter xO p n) with (Pos.iter xO p n).
  revert p. induction n as [|n IH] using Pos.peano_ind; intros p.
  - simpl. lia.
  - rewrite Pos.iter_succ, Pos2Z.inj_xO, IH, Pos2Z.inj_succ.
    rewrite Z.pow_succ_r by lia. lia.
Qed.

Lemma aux_exact (s : bool) (m : positive) (e : Z) :
  Zpos (Pos.size m) = 53 -> -1074 <= e ->
  binary_round_aux prec emax s (Zpos m) e loc_Exact
  = binary64_of s (e, Zpos m).
Proof.
  intros Hm He. unfold binary_round_aux.
  assert (shr_fexp prec emax (Zpos m) e loc_Exact
          = ({| shr_m := Zpos m; shr_r := false; shr_s := false |}, e)) as Hs.
  { unfold shr_fexp. rewrite zdigits, Hm.
    unfold fexp, SpecFloat.emin, prec, emax.
    replace (Z.max _ _ - e) with 0 by lia. reflexivity. }
  rewrite Hs. cbn [shr_m loc_of_shr_record round_nearest_even].
  rewrite Hs. cbn [shr_m]. reflexivity.
Qed.

Lemma round_half_even_bounds (p k : Z) :
  0 < k -> 2 ^ (52 + k) <= p < 2 ^ (53 + k) ->
  2 ^ 52 <= round_half_even p k <= 2 ^ 53.
Proof.
  intros Hk [Hlo Hhi].
  rewrite Z.pow_add_r in Hlo, Hhi by lia.
  pose proof (Z.pow_pos_nonneg 2 k ltac:(lia) ltac:(lia)) as Hpow.
  assert (2 ^ 52 <= p / 2 ^ k) as Hq1
    by (apply Z.div_le_lower_bound; lia).
  assert (p / 2 ^ k < 2 ^ 53) as Hq2
    by (apply Z.div_lt_upper_bound; lia).
  unfold round_half_even. cbv zeta.
  destruct (_ <? _); [lia|]. destruct (_ =? _); [destruct (Z.even _)|]; lia.
Qed.

Lemma round_half_even_mono (p q k : Z) :
  0 < k -> 0 <= p <= q -> round_half_even p k <= round_half_even q k.
Proof.
  intros Hk Hpq.
  pose proof (Z.pow_pos_nonneg 2 k ltac:(lia) ltac:(lia)) as Hpow.
  assert (2 ^ k = 2 * 2 ^ (k - 1)) as Hh.
  { replace k with (Z.succ (k - 1)) at 1 by lia.
    rewrite Z.pow_succ_r by lia. reflexivity. }
  pose proof (Z.div_mod p (2 ^ k) ltac:(lia)) as Hp.
  pose proof (Z.div_mod q (2 ^ k) ltac:(lia)) as Hq.
  pose proof (Z.mod_pos_bound p (2 ^ k) ltac:(lia)) as Hpb.
  pose proof (Z.mod_pos_bound q (2 ^ k) ltac:(lia)) as Hqb.
  assert (p / 2 ^ k <= q / 2 ^ k) as Hdiv
    by (apply Z.div_le_mono; lia).
  unfold round_half_even. cbv zeta.
  set (a := p / 2 ^ k) in *. set (b := q / 2 ^ k) in *.
  set (r := p mod 2 ^ k) in *. set (t := q mod 2 ^ k) in *.
  set (h := 2 ^ (k - 1)) in *.
  assert (a = b \/ a + 1 <= b) as [Hab|Hab] by lia.
  - assert (r <= t) by nia.
    rewrite <- Hab.
    destruct (Z.ltb_spec r h), (Z.ltb_spec t h),
      (Z.eqb_spec r h), (Z.eqb_spec t h), (Z.even a); lia.
  - destruct (Z.ltb_spec r h), (Z.ltb_spec t h),
      (Z.eqb_spec r h), (Z.eqb_spec t h), (Z.even a), (Z.even b); lia.
Qed.

Lemma aux_round (s : bool) (p k : positive) :
  Zpos (Pos.size p) = 53 + Zpos k ->
  binary_round_aux prec emax s (Zpos p) 0 loc_Exact
  = binary64_of s (let m := round_half_even (Zpos p) (Zpos k) in
             if m =? 2 ^ 53 then (Zpos k + 1, 2 ^ 52) else (Zpos k, m)).
Proof.
  intros Hd. unfold binary_round_aux.
  pose proof (size_bounds p) as Hb. rewrite Hd in Hb.
  replace (53 + Zpos k - 1) with (52 + Zpos k) in Hb by lia.
  pose proof (round_half_even_bounds (Zpos p) (Zpos k) ltac:(lia) Hb) as Hm.
  destruct (round_shr (Zpos p) k ltac:(lia)) as [_ Hround].
  cbv zeta in Hround.
  assert (shr_fexp prec emax (Zpos p) 0 loc_Exact
          = (SpecFloat.iter_pos shr_1 k
               {| shr_m := Zpos p; shr_r := false; shr_s := false |},
             Zpos k)) as Hs.
  { unfold shr_fexp. rewrite zdigits, Hd.
    unfold fexp, SpecFloat.emin, prec, emax.
    replace (Z.max _ _ - 0) with (Zpos k) by lia. reflexivity. }
  rewrite Hs, Hround. cbv zeta.
  set (m := round_half_even (Zpos p) (Zpos k)) in *.
  destruct (Z.eqb_spec m (2 ^ 53)) as [E|E].
  - rewrite E.
    assert (shr_fexp prec emax (2 ^ 53) (Zpos k) loc_Exact
            = ({| shr_m := 2 ^ 52; shr_r := false; shr_s := false |},
               Zpos k + 1)) as Hs2.
    { unfold shr_fexp. change (Zdigits2 (2 ^ 53)) with 54.
      unfold fexp, SpecFloat.emin, prec, emax.
      replace (Z.max _ _ - Zpos k) with 1 by lia. reflexivity. }
    rewrite Hs2. reflexivity.
  - destruct m as [|m'|m'] eqn:Em; try lia.
    assert (Zpos (Pos.size m') = 53) as Hsz by (apply size_unique; lia).
    assert (shr_fexp prec emax (Zpos m') (Zpos k) loc_Exact
            = ({| shr_m := Zpos m'; shr_r := false; shr_s := false |},
               Zpos k)) as Hs2.
    { unfold shr_fexp. rewrite zdigits, Hsz.
      unfold fexp, SpecFloat.emin, prec, emax.
      replace (Z.max _ _ - Zpos k) with 0 by lia. reflexivity. }
    rewrite Hs2. reflexivity.
Qed.

Lemma binary_round_nearest (s : bool) (p : positive) :
  binary_round prec emax s p 0 = binary64_of s (nearest_binary64 p).
Proof.
  unfold binary_round, nearest_binary64. rewrite digits2_size. cbv zeta.
  set (d := Zpos (Pos.size p)).
  assert (fexp prec emax (d + 0) = d - 53) as ->.
  { unfold fexp, SpecFloat.emin, prec, emax. subst d. lia. }
  unfold shl_align.
  destruct (Z.leb_spec d 53) as [Hd|Hd].
  - destruct (d - 53 - 0) as [|j|j] eqn:E; try lia.
    + rewrite aux_exact by (subst d; lia).
      replace (53 - d) with 0 by lia. replace (d - 53) with 0 by lia.
      f_equal. f_equal. lia.
    + rewrite aux_exact.
      * f_equal. f_equal. rewrite iter_xO. f_equal. f_equal. lia.
      * apply size_unique. rewrite iter_xO.
        pose proof (size_bounds p) as Hb. fold d in Hb.
        replace (2 ^ (53 - 1)) with (2 ^ (d - 1) * 2 ^ Zpos j)
          by (rewrite <- Z.pow_add_r by (subst d; lia); f_equal; lia).
        replace (2 ^ 53) with (2 ^ d * 2 ^ Zpos j)
          by (rewrite <- Z.pow_add_r by (subst d; lia); f_equal; lia).
        pose proof (Z.pow_pos_nonneg 2 (Zpos j) ltac:(lia) ltac:(lia)).
        nia.
      * lia.
  - destruct (d - 53 - 0) as [|j|j] eqn:E; try lia.
    rewrite (aux_round s p j) by (fold d; lia).
    replace (d - 53) with (Zpos j) by lia. reflexivity.
Qed.

Lemma size_mono (p q : positive) :
  (p <= q)%positive -> Zpos (Pos.size p) <= Zpos (Pos.size q).
Proof.
  intros Hpq. pose proof (size_bounds p) as Hp.
  pose proof (size_bounds q) as Hq.
  destruct (Z.le_gt_cases (Zpos (Pos.size p)) (Zpos (Pos.size q)))
    as [H|H]; [done|].
  assert (2 ^ Zpos (Pos.size q) <= 2 ^ (Zpos (Pos.size p) - 1))
    by (apply Z.pow_le_mono_r; lia).
  lia.
Qed.

Lemma nearest_binary64_mantissa (p : positive) :
  2 ^ 52 <= (nearest_binary64 p).2.
Proof.
  unfold nearest_binary64. cbv zeta. pose proof (size_bounds p) as Hb.
  set (d := Zpos (Pos.size p)) in *.
  destruct (Z.leb_spec d 53) as [Hd|Hd]; cbn [snd].
  - replace (2 ^ 52) with (2 ^ (d - 1) * 2 ^ (53 - d))
      by (rewrite <- Z.pow_add_r by (subst d; lia); f_equal; lia).
    pose proof (Z.pow_pos_nonneg 2 (53 - d) ltac:(lia) ltac:(lia)). nia.
  - assert (2 ^ 52 <= round_half_even (Zpos p) (d - 53) <= 2 ^ 53) as Hm.
    { apply round_half_even_bounds; [lia|].
      replace (52 + (d - 53)) with (d - 1) by lia.
      by replace (53 + (d - 53)) with d by lia. }
    destruct (_ =? _); cbn [snd]; lia.
Qed.

Lemma nearest_binary64_mono (p q : positive) :
  (p <= q)%positive ->
  (nearest_binary64 p).1 < (nearest_binary64 q).1
  \/ ((nearest_binary64 p).1 = (nearest_binary64 q).1
      /\ (nearest_binary64 p).2 <= (nearest_binary64 q).2).
Proof.
  intros Hpq. pose proof (size_mono p q Hpq) as Hd.
  pose proof (size_bounds p) as Hbp. pose proof (size_bounds q) as Hbq.
  unfold nearest_binary64. cbv zeta.
  set (dp := Zpos (Pos.size p)) in *. set (dq := Zpos (Pos.size q)) in *.
  destruct (Z.leb_spec dp 53) as [Hp|Hp], (Z.leb_spec dq 53) as [Hq|Hq];
    try lia.
  - cbn [fst snd].
    assert (dp < dq \/ dp = dq) as [H|H] by lia; [left; lia|right].
    rewrite H. split; [done|].
    pose proof (Z.pow_pos_nonneg 2 (53 - dq) ltac:(lia) ltac:(lia)). nia.
  - left. destruct (_ =? _); cbn [fst]; lia.
  - assert (2 ^ 52 <= round_half_even (Zpos p) (dp - 53) <= 2 ^ 53) as Hmp.
    { apply round_half_even_bounds; [lia|].
      replace (52 + (dp - 53)) with (dp - 1) by lia.
      by replace (53 + (dp - 53)) with dp by lia. }
    assert (2 ^ 52 <= round_half_even (Zpos q) (dq - 53) <= 2 ^ 53) as Hmq.
    { apply round_half_even_bounds; [lia|].
      replace (52 + (dq - 53)) with (dq - 1) by lia.
      by replace (53 + (dq - 53)) with dq by lia. }
    assert (dp < dq \/ dp = dq) as [H|H] by lia.
    + destruct (Z.eqb_spec (round_half_even (Zpos p) (dp - 53)) (2 ^ 53)),
        (Z.eqb_spec (round_half_even (Zpos q) (dq - 53)) (2 ^ 53));
        cbn [fst snd]; lia.
    + rewrite H in *.
      pose proof (round_half_even_mono (Zpos p) (Zpos q) (dq - 53)
                    ltac:(lia) ltac:(lia)).
      destruct (Z.eqb_spec (round_half_even (Zpos p) (dq - 53)) (2 ^ 53)),
        (Z.eqb_spec (round_half_even (Zpos q) (dq - 53)) (2 ^ 53));
        cbn [fst snd]; lia.
Qed.

Lemma binary64_of_le (em1 em2 : Z * Z) :
  0 < em1.2 -> 0 < em2.2 ->
  em1.1 < em2.1 \/ (em1.1 = em2.1 /\ em1.2 <= em2.2) ->
  SFleb (binary64_of false em1) (binary64_of false em2) = true
  /\ SFleb (binary64_of true em2) (binary64_of true em1) = true.
Proof.
  destruct em1 as [e1 m1], em2 as [e2 m2]. cbn [fst snd]. intros H1 H2 H.
  unfold binary64_of. cbn [fst snd].
  destruct (Z.leb_spec e1 971), (Z.leb_spec e2 971); try lia;
    try (split; reflexivity).
  unfold SFleb, SFcompare.
  change (PosDef.Pos.compare_cont Eq) with Pos.compare.
  destruct H as [H|[-> H]].
  - rewrite (proj2 (Z.compare_lt_iff e1 e2)) by done.
    rewrite (proj2 (Z.compare_gt_iff e2 e1)) by done. done.
  - rewrite Z.compare_refl.
    destruct (Pos.compare_spec (Z.to_pos m1) (Z.to_pos m2));
      destruct (Pos.compare_spec (Z.to_pos m2) (Z.to_pos m1));
      simpl; try done; lia.
Qed.

Lemma float_of_int64_not_nan (z : Z) : np.float_of_int64 z <> S754_nan.
Proof.
  unfold np.float_of_int64, binary_normalize.
  destruct z as [|p|p]; [done| |];
    rewrite binary_round_nearest; unfold binary64_of; by destruct (_ <=? _).
Qed.

Lemma float_of_int64_mono (y x : Z) :
  y <= x -> SFleb (np.float_of_int64 y) (np.float_of_int64 x) = true.
Proof.
  intros Hyx. unfold np.float_of_int64, binary_normalize.
  destruct y as [|p|p], x as [|q|q]; try lia; try reflexivity;
    rewrite ?binary_round_nearest.
  - unfold binary64_of. by destruct (_ <=? _).
  - pose proof (nearest_binary64_mantissa p).
    pose proof (nearest_binary64_mantissa q).
    apply binary64_of_le; [lia|lia|]. apply nearest_binary64_mono. lia.
  - unfold binary64_of. by destruct (_ <=? _).
  - unfold binary64_of. by do 2 destruct (_ <=? _).
  - pose proof (nearest_binary64_mantissa p).
    pose proof (nearest_binary64_mantissa q).
    apply (binary64_of_le (nearest_binary64 q) (nearest_binary64 p));
      [lia|lia|].
    apply nearest_binary64_mono. lia.
Qed.

End Conversion.

(** *** The order of binary64 values, from its specification *)

Section FloatOrder.

Ltac order_cases :=
  repeat match goal with
         | |- context [Z.compare ?a ?b] =>
             destruct (Z.compare_spec a b); subst
         | |- context [Pos.compare ?a ?b] =>
             destruct (Pos.compare_spec a b); subst
         | H : context [Z.compare ?a ?b] |- _ =>
             destruct (Z.compare_spec a b); subst
         | H : context [Pos.compare ?a ?b] |- _ =>
             destruct (Pos.compare_spec a b); subst
         end;
  simpl in *; try reflexivity; try discriminate; try lia.

Ltac float_cases :=
  unfold SFltb, SFleb, SFeqb, SFcompare;
  change (PosDef.Pos.compare_cont Eq) with Pos.compare;
  repeat match goal with
         | s : bool |- _ => destruct s
         end;
  simpl; intros; order_cases.

Lemma SFleb_refl (a : spec_float) : a <> S754_nan -> SFleb a a = true.
Proof. destruct a; try (intros H; now destruct H); intros _; float_cases. Qed.

Lemma SFleb_total (a b : spec_float) :
  a <> S754_nan -> b <> S754_nan -> SFleb b a = false -> SFleb a b = true.
Proof.
  destruct a, b; try (intros H; now destruct H);
    try (intros _ H; now destruct H); intros _ _; float_cases.
Qed.

Lemma SFleb_trans (a b c : spec_float) :
  SFleb a b = true -> SFleb b c = true -> SFleb a c = true.
Proof. destruct a, b, c; float_cases. Qed.

Lemma SFltb_leb_trans (a b c : spec_float) :
  SFltb a b = true -> SFleb b c = true -> SFltb a c = true.
Proof. destruct a, b, c; float_cases. Qed.

Lemma SFleb_nan_l (a : spec_float) : SFleb S754_nan a = false.
Proof. reflexivity. Qed.

Lemma SFleb_nan_r (a : spec_float) : SFleb a S754_nan = false.
Proof. by destruct a. Qed.

Lemma SFltb_nan_r (a : spec_float) : SFltb a S754_nan = false.
Proof. by destruct a. Qed.

Lemma SFleb_not_ltb (a b : spec_float) :
  a <> S754_nan -> b <> S754_nan -> SFleb a b = negb (SFltb b a).
Proof.
  destruct a, b; try (intros H; now destruct H);
    try (intros _ H; now destruct H); intros _ _; float_cases.
Qed.

Lemma SFeqb_not_ltb (a b : spec_float) :
  SFeqb a b = true -> SFltb b a = false.
Proof. destruct a, b; float_cases. Qed.

Lemma SFeqb_refl (a : spec_float) : a <> S754_nan -> SFeqb a a = true.
Proof. destruct a; try (intros H; now destruct H); intros _; float_cases. Qed.

Lemma is_nan_spec (x : float) :
  PrimFloat.is_nan x = true <-> Prim2SF x = S754_nan.
Proof.
  unfold PrimFloat.is_nan. rewrite FloatAxioms.eqb_spec. split.
  - intros H. destruct (Prim2SF x) eqn:E; try done;
      rewrite SFeqb_refl in H; done.
  - by intros ->.
Qed.

Lemma is_nan_false (x : float) :
  PrimFloat.is_nan x = false -> Prim2SF x <> S754_nan.
Proof. intros H E. apply is_nan_spec in E. congruence. Qed.

End FloatOrder.

(** *** Both element types satisfy the order laws *)

Lemma float64_laws : dtype_laws np.float64.
Proof.
  split; simpl.
  - intros x H. rewrite FloatAxioms.leb_spec.
    by apply SFleb_refl, is_nan_false.
  - intros x y Hx Hy. rewrite !FloatAxioms.leb_spec.
    by apply SFleb_total; apply is_nan_false.
  - intros x y z. rewrite !FloatAxioms.leb_spec. intros H1 H2.
    by eapply SFleb_trans.
  - intros x y H. rewrite FloatAxioms.leb_spec, (proj1 (is_nan_spec y) H).
    apply SFleb_nan_l.
  - intros x y tol. rewrite FloatAxioms.leb_spec, !FloatAxioms.ltb_spec.
    intros H1 H2. by eapply SFltb_leb_trans.
  - intros x tol H. rewrite FloatAxioms.ltb_spec, (proj1 (is_nan_spec x) H).
    apply SFltb_nan_r.
  - intros x tol Hx Ht. rewrite FloatAxioms.leb_spec, FloatAxioms.ltb_spec.
    by apply SFleb_not_ltb; apply is_nan_false.
  - intros x tol. rewrite FloatAxioms.eqb_spec, FloatAxioms.ltb_spec.
    apply SFeqb_not_ltb.
Qed.

Lemma int64_laws : dtype_laws np.int64.
Proof.
  split; simpl.
  - intros x _. apply Z.leb_refl.
  - intros x y _ _ H. apply Z.leb_gt in H. apply Z.leb_le. lia.
  - intros x y z H1 H2. apply Z.leb_le in H1, H2. apply Z.leb_le. lia.
  - done.
  - intros x y tol H1 H2. apply Z.leb_le in H1.
    eapply SFltb_leb_trans; [exact H2|]. by apply float_of_int64_mono.
  - done.
  - intros x tol _ Ht.
    apply SFleb_not_ltb; [apply float_of_int64_not_nan|by apply is_nan_false].
  - intros x tol. apply SFeqb_not_ltb.
Qed.

(** Within the range of [int64] the computed absolute difference is the
    absolute difference of the integers. *)
Lemma int64_abs_sub_exact (x y : Z) :
  Z.abs (x - y) < 2 ^ 63 ->
  np.absolute (np.sub x y) = Z.abs (x - y).
Proof.
  intros H. simpl. unfold np.wrap64.
  assert (forall z, - 2 ^ 63 <= z < 2 ^ 63 ->
                    (z + 2 ^ 63) mod 2 ^ 64 - 2 ^ 63 = z) as Hw.
  { intros z Hz. rewrite Z.mod_small; lia. }
  rewrite (Hw (x - y)) by lia. apply Hw. lia.
Qed.

(** *** Subtraction, maximum and comparison *)

Section Compare.
Context {num : Type} {D : np.dtype num} (L : dtype_laws D).

Lemma broadcast_rev_same (s : list nat) : np.broadcast_rev s s = Ok s.
Proof.
  induction s as [|d s IH]; [done|]. simpl.
  by rewrite Nat.eqb_refl, IH.
Qed.

Lemma broadcast_shapes_same (s : list nat) : np.broadcast_shapes s s = Ok s.
Proof.
  unfold np.broadcast_shapes. rewrite broadcast_rev_same. simpl.
  by rewrite rev_involutive.
Qed.

Lemma chunks_concat {A} (n size : nat) (l : list A) :
  length l = (n * size)%nat -> concat (np.chunks n size l) = l.
Proof.
  revert l. induction n as [|n IH]; intros l Hl; simpl.
  - by destruct l.
  - rewrite IH; [apply take_drop|]. rewrite length_drop. lia.
Qed.

Lemma chunks_length {A} (n size : nat) (l : list A) :
  length l = (n * size)%nat ->
  Forall (fun c => length c = size) (np.chunks n size l).
Proof.
  revert l. induction n as [|n IH]; intros l Hl; simpl; constructor.
  - rewrite length_take. lia.
  - apply IH. rewrite length_drop. lia.
Qed.

Lemma broadcast_to_same {A} (s : list nat) (l : list A) :
  length l = np.size s -> np.broadcast_to s s l = l.
Proof.
  revert l. induction s as [|d s IH]; intros l Hl; [done|].
  cbn [np.broadcast_to]. rewrite Nat.ltb_irrefl, Nat.eqb_refl.
  simpl in Hl.
  rewrite <- (chunks_concat d (np.size s) l Hl) at 2. f_equal.
  rewrite <- (map_id (np.chunks d (np.size s) l)) at 2.
  apply map_ext_Forall.
  eapply Forall_impl; [by apply chunks_length|].
  intros c Hc. by apply IH.
Qed.

Lemma subtract_same_shape (a b : np.ndarray num) :
  np.wf a -> np.wf b -> np.shape a = np.shape b ->
  np.subtract a b
  = Ok {| np.shape := np.shape a;
          np.data := zip_with np.sub (np.data a) (np.data b) |}.
Proof.
  intros Ha Hb Hs. unfold np.subtract. rewrite <- Hs.
  rewrite broadcast_shapes_same. simpl rbind.
  rewrite !broadcast_to_same; [done| |done]. by rewrite Hs.
Qed.

Lemma maximum_cases (x y : num) :
  np.isnan x = false -> np.isnan y = false ->
  (np.maximum x y = x \/ np.maximum x y = y)
  /\ np.greater_equal (np.maximum x y) x = true
  /\ np.greater_equal (np.maximum x y) y = true.
Proof.
  intros Hx Hy. unfold np.maximum. rewrite Hx, orb_false_r.
  destruct (np.greater_equal x y) eqn:E.
  - split; [by left|]. split; [by apply (ge_refl _ L)|done].
  - split; [by right|]. split; [by apply (ge_total _ L)|by apply (ge_refl _ L)].
Qed.

(** Without NaN the running maximum is one of the elements and is not
    below any of them. *)
Lemma fold_maximum_spec (rest : list num) :
  forall x : num,
    np.isnan x = false ->
    Forall (fun y => np.isnan y = false) rest ->
    let m := fold_left np.maximum rest x in
    (m = x \/ In m rest)
    /\ np.greater_equal m x = true
    /\ Forall (fun y => np.greater_equal m y = true) rest.
Proof.
  induction rest as [|y rest IH]; intros x Hx Hall; simpl.
  - split; [by left|]. split; [by apply (ge_refl _ L)|constructor].
  - inversion Hall as [|? ? Hy Hrest]; subst.
    destruct (maximum_cases x y Hx Hy) as (Hc & Hgx & Hgy).
    assert (np.isnan (np.maximum x y) = false) as Hm
      by (destruct Hc as [-> | ->]; done).
    destruct (IH (np.maximum x y) Hm Hrest) as (Hin & Hge & Hbound).
    split; [|split].
    + destruct Hin as [Hin|Hin]; [|by right; right].
      rewrite Hin. destruct Hc as [-> | ->]; [by left|by right; left].
    + by eapply (ge_trans _ L).
    + constructor; [by eapply (ge_trans _ L)|done].
Qed.

(** A NaN, once met, is the result of the reduction. *)
Lemma fold_maximum_nan (rest : list num) :
  forall x : num,
    np.isnan x = true \/ Exists (fun y => np.isnan y = true) rest ->
    np.isnan (fold_left np.maximum rest x) = true.
Proof.
  induction rest as [|y rest IH]; intros x H; simpl.
  - destruct H as [H|H]; [done|inversion H].
  - apply IH. destruct H as [H|H].
    + left. unfold np.maximum. by rewrite H, orb_true_r.
    + inversion H as [? ? Hy|? ? Hrest]; subst; [|by right].
      left. unfold np.maximum. rewrite (ge_nan _ L x y Hy).
      by destruct (np.isnan x) eqn:E.
Qed.

Lemma In_abs_diff (a b : list num) (m : num) :
  In m (map np.absolute (zip_with np.sub a b))
  <-> exists i x y, a !! i = Some x /\ b !! i = Some y
                    /\ m = np.absolute (np.sub x y).
Proof.
  rewrite in_map_iff. split.
  - intros (d & <- & Hd).
    apply list_elem_of_In, list_elem_of_lookup in Hd. destruct Hd as [i Hi].
    apply lookup_zip_with_Some in Hi. destruct Hi as (x & y & -> & Hx & Hy).
    by exists i, x, y.
  - intros (i & x & y & Hx & Hy & ->). exists (np.sub x y). split; [done|].
    apply list_elem_of_In, list_elem_of_lookup. exists i.
    apply lookup_zip_with_Some. by exists x, y.
Qed.

End Compare.

(** C8, as stated, fails.  Two arrays of one shape without elements
    make [array_comp] raise [ValueError] instead of returning; a NaN
    among the differences makes it return [True] although another
    difference, here 5, exceeds the tolerance; and [int64] arrays whose
    difference leaves the range make it return [True] although the
    difference of [2^62] and [-2^62] is [2^63]. *)
Lemma array_comp_not_within_tolerance :
  let self := ArrayUtil.init "/tmp" None None in
  ArrayUtil.array_comp self (np.array ([] : list float)) (np.array [])
  = Raise ValueError
  /\ (ArrayUtil.array_comp self (np.array [nan; 5]%float)
        (np.array [0; 0]%float) = Ok true
      /\ np.greater_float (np.absolute (np.sub 5 0)%float)
           (ArrayUtil.max_error self) = true)
  /\ (ArrayUtil.array_comp self (np.array [2 ^ 62]) (np.array [- 2 ^ 62])
      = Ok true
      /\ np.absolute (np.sub (2 ^ 62) (- 2 ^ 62)) = - 2 ^ 63
      /\ (1 # 100 < inject_Z (Z.abs (2 ^ 62 - - 2 ^ 62)))%Q).
Proof. vm_compute. repeat split. Qed.

(** C8, amended.  Take two arrays of one shape with elements of one
    type.  Without elements, [array_comp] raises [ValueError].  With at
    least one element it returns a boolean.  If no computed absolute
    difference [|x - y|] of corresponding elements is NaN, then with [m]
    the greatest of them the result is [False] exactly when
    [m > max_error], which is exactly when some computed absolute
    difference exceeds [max_error]; for a [max_error] that is not NaN it
    is [True] exactly when [m <= max_error], and it is [True] when
    [m == max_error].  If a computed absolute difference is NaN, the
    result is [True].  Without a [max_error] argument the tolerance is
    0.01.  Differences, absolute values and comparisons are those of the
    element type, and the theorem holds for every element type with the
    order laws: [float64_laws] and [int64_laws] give the two of the
    model. *)
Theorem array_comp_within_tolerance {num : Type} (D : np.dtype num)
    (L : dtype_laws D) (self : ArrayUtil.t) (a b : np.ndarray num)
    (cwd : string) :
  np.wf a -> np.wf b ->
  np.shape a = np.shape b ->
  let diffs := map np.absolute (zip_with np.sub (np.data a) (np.data b)) in
  let tol := ArrayUtil.max_error self in
  (np.data a = [] -> ArrayUtil.array_comp self a b = Raise ValueError)
  /\ (np.data a <> [] ->
      Forall (fun d => np.isnan d = false) diffs ->
      exists (r : bool) (m : num),
        ArrayUtil.array_comp self a b = Ok r
        /\ max_abs_diff (np.data a) (np.data b) m
        /\ (r = false <-> np.greater_float m tol = true)
        /\ (r = false <->
            exists i x y, np.data a !! i = Some x /\ np.data b !! i = Some y
                          /\ np.greater_float (np.absolute (np.sub x y)) tol
                             = true)
        /\ (PrimFloat.is_nan tol = false ->
            (r = true <-> np.less_equal_float m tol = true))
        /\ (np.equal_float m tol = true -> r = true))
  /\ (Exists (fun d => np.isnan d = true) diffs ->
      ArrayUtil.array_comp self a b = Ok true)
  /\ ArrayUtil.max_error (ArrayUtil.init cwd None None) = 0.01%float.
Proof.
  intros Ha Hb Hs diffs tol.
  assert (length (np.data a) = length (np.data b)) as Hlen
    by (unfold np.wf in Ha, Hb; congruence).
  assert (ArrayUtil.array_comp self a b
          = (max <-! np.max {| np.shape := np.shape a; np.data := diffs |};
             if np.greater_float max tol then Ok false else Ok true)) as Hrun.
  { unfold ArrayUtil.array_comp. by rewrite subtract_same_shape. }
  rewrite Hrun. clear Hrun.
  assert (forall l : list num, l = [] \/ exists d0 rest, l = d0 :: rest) as Hc
    by (intros [|d0 rest]; eauto).
  destruct (Hc diffs) as [Hd|(d0 & rest & Hd)]; clear Hc.
  { (* no element *)
    split; [|split; [|split; [|reflexivity]]].
    - intros _. unfold np.max. simpl. by rewrite Hd.
    - intros Hne. exfalso. subst diffs.
      destruct (np.data a), (np.data b); done.
    - rewrite Hd. inversion 1. }
  assert (np.max {| np.shape := np.shape a; np.data := diffs |}
          = Ok (fold_left np.maximum rest d0)) as Hmax
    by (unfold np.max; simpl; by rewrite Hd).
  rewrite Hmax. simpl rbind.
  set (m := fold_left np.maximum rest d0).
  split; [|split; [|split; [|reflexivity]]].
  - intros Hnil. subst diffs. by rewrite Hnil in Hd.
  - intros _ Hall. rewrite Hd in Hall.
    inversion Hall as [|? ? Hd0 Hrest]; subst x l.
    destruct (fold_maximum_spec L rest d0 Hd0 Hrest) as (Hin & Hge & Hbound).
    fold m in Hin, Hge, Hbound.
    assert (In m diffs) as Hm
      by (rewrite Hd; destruct Hin as [->|Hin]; [by left|by right]).
    assert (np.isnan m = false) as Hmn.
    { rewrite Hd in Hm. rewrite Forall_forall in Hall.
      apply Hall. by apply list_elem_of_In. }
    assert (forall i x y, np.data a !! i = Some x -> np.data b !! i = Some y ->
              np.greater_equal m (np.absolute (np.sub x y)) = true) as Hup.
    { intros i x y Hx Hy.
      assert (In (np.absolute (np.sub x y)) diffs) as Hi
        by (apply In_abs_diff; by exists i, x, y).
      rewrite Hd in Hi. destruct Hi as [<-|Hi]; [done|].
      rewrite Forall_forall in Hbound. by apply Hbound, list_elem_of_In. }
    apply In_abs_diff in Hm.
    exists (negb (np.greater_float m tol)), m.
    split; [by destruct (np.greater_float m tol)|].
    split; [done|].
    split; [by destruct (np.greater_float m tol)|].
    split; [|split].
    + split.
      * intros Hr. destruct Hm as (i & x & y & Hx & Hy & Hmxy).
        exists i, x, y. split; [done|]. split; [done|].
        rewrite <- Hmxy. by destruct (np.greater_float m tol).
      * intros (i & x & y & Hx & Hy & Hgt).
        rewrite (gt_float_mono _ L m _ tol (Hup i x y Hx Hy) Hgt). done.
    + intros Ht. rewrite (le_float_gt _ L m tol Hmn Ht). done.
    + intros He. by rewrite (eq_float_gt _ L m tol He).
  - intros Hex. rewrite Hd in Hex.
    assert (np.isnan m = true) as Hmn.
    { apply (fold_maximum_nan L). inversion Hex; subst; [by left|by right]. }
    by rewrite (gt_float_nan _ L m tol Hmn).
Qed.

Lemma array_comp_within_tolerance_witness :
  (exists m, max_abs_diff [1; 2.5]%float [1.01; 2.5]%float m
             /\ ArrayUtil.array_comp (ArrayUtil.init "/tmp" None None)
                  (np.array [1; 2.5]%float) (np.array [1.01; 2.5]%float)
                = Ok false)
  /\ (exists m, max_abs_diff [3; 7] [3; 6] m
                /\ ArrayUtil.array_comp
                     (ArrayUtil.init "/tmp" None (Some 1%float))
                     (np.array [3; 7]) (np.array [3; 6])
                   = Ok true).
Proof.
  split.
  - destruct (proj1 (proj2 (array_comp_within_tolerance np.float64
                       float64_laws (ArrayUtil.init "/tmp" None None)
                       (np.array [1; 2.5]%float)
                       (np.array [1.01; 2.5]%float)
                       "/tmp" eq_refl eq_refl eq_refl))
                    ltac:(discriminate) ltac:(repeat constructor))
      as (r & m & Hr & Hm & _).
    exists m. split; [exact Hm|reflexivity].
  - destruct (proj1 (proj2 (array_comp_within_tolerance np.int64
                       int64_laws (ArrayUtil.init "/tmp" None (Some 1%float))
                       (np.array [3; 7]) (np.array [3; 6])
                       "/tmp" eq_refl eq_refl eq_refl))
                    ltac:(discriminate) ltac:(repeat constructor))
      as (r & m & Hr & Hm & _).
    exists m. split; [exact Hm|reflexivity].
Defined.

(** ** [multi_dim_list_size] *)

Section Trees.
Import ArrayUtil.

(** Induction on trees: a property of all elements of a sequence
    passes to the sequence. *)
Lemma value_tree_ind (P : value -> Prop) :
  P VNone ->
  (forall b, P (VBool b)) ->
  (forall z, P (VInt z)) ->
  (forall q, P (VFloat q)) ->
  (forall s, P (VStr s)) ->
  (forall items, Forall P items -> P (VList items)) ->
  forall t, P t.
Proof.
  intros HNone HBool HInt HFloat HStr HList.
  refine (fix IH (t : value) : P t :=
            match t with
            | VNone => HNone
            | VBool b => HBool b
            | VInt z => HInt z
            | VFloat q => HFloat q
            | VStr s => HStr s
            | VList items =>
                HList items
                  ((fix all (l : list value) : Forall P l :=
                      match l with
                      | [] => @List.Forall_nil _ P
                      | x :: r => @List.Forall_cons _ P x r (IH x) (all r)
                      end) items)
            end).
Qed.

Lemma next_item_list (items : list value) (new_list : bool)
    (nesting_change : Z) (end_of_list : bool) :
  next_item (VList items) new_list nesting_change end_of_list
  = next_items (Z.of_nat (length items)) items 1 nesting_change.
Proof. reflexivity. Qed.

Lemma count_leaves_list (items : list value) :
  count_leaves (VList items) = sum_leaves items.
Proof. reflexivity. Qed.

Lemma next_item_scalar (t : value) (new_list : bool) (nesting_change : Z)
    (end_of_list : bool) :
  isinstance_list t = false ->
  next_item t new_list nesting_change end_of_list
  = [(t, end_of_list, new_list, nesting_change)].
Proof. by destruct t. Qed.

Lemma count_leaves_scalar (t : value) :
  isinstance_list t = false -> count_leaves t = 1.
Proof. by destruct t. Qed.

(** Every leaf is yielded once, whatever the flags passed down. *)
Lemma next_item_length (t : value) :
  forall (new_list : bool) (nesting_change : Z) (end_of_list : bool),
    Z.of_nat (length (next_item t new_list nesting_change end_of_list))
    = count_leaves t.
Proof.
  induction t as [| | | | |items IH] using value_tree_ind; try done.
  intros new_list nesting_change end_of_list.
  rewrite next_item_list, count_leaves_list.
  generalize (Z.of_nat (length items)) as len.
  generalize 1 as list_size. revert nesting_change.
  induction IH as [|item rest Hitem _ IHrest];
    intros nesting_change list_size len; [done|].
  simpl. destruct (isinstance_list item) eqn:E.
  - rewrite length_app, Nat2Z.inj_add, Hitem, IHrest. done.
  - rewrite (count_leaves_scalar item E).
    simpl length. rewrite Nat2Z.inj_succ, IHrest. lia.
Qed.

(** The counting loop fails at the first record it is given. *)
Lemma count_items_cases (records : list trav) (item_num : Z) :
  count_items records item_num
  = match records with
    | [] => Ok item_num
    | _ :: _ => Raise ValueError
    end.
Proof. destruct records as [|[[[item e] n] c] rest]; reflexivity. Qed.

End Trees.

(** C1.  [multi_dim_list_size] agrees with the direct recursive count
    of the scalar leaves on [None] (0), on a bare scalar (1) and on a
    list without leaves (0).  On every list that holds a leaf at some
    depth it raises [ValueError]: the counting loop unpacks the
    four-component records of [next_item] into two names.  [[1]] has one
    leaf and raises. *)
Theorem multi_dim_list_size_unpack_error :
  (forall t : value,
      ArrayUtil.multi_dim_list_size t
      = match t with
        | VList _ =>
            if scalar_leaves t =? 0 then Ok 0 else Raise ValueError
        | _ => Ok (scalar_leaves t)
        end)
  /\ scalar_leaves (VList [VInt 1]) = 1
  /\ ArrayUtil.multi_dim_list_size (VList [VInt 1]) = Raise ValueError.
Proof.
  split; [|split; reflexivity].
  intros t. destruct t as [| | | | |items]; try reflexivity.
  unfold ArrayUtil.multi_dim_list_size. rewrite count_items_cases.
  pose proof (next_item_length (VList items) true 0 true) as Hlen.
  change (scalar_leaves (VList items)) with (count_leaves (VList items)).
  rewrite <- Hlen.
  destruct (ArrayUtil.next_item (VList items) true 0 true); reflexivity.
Qed.

(** ** [ArrayIndexIter] *)

Section IndexIter.
Import ArrayIndexIter.

(** *** Indexing at a position that exists *)

Lemma py_index_nat {A} (l : list A) (k : nat) (x : A) :
  l !! k = Some x -> py_index l (Z.of_nat k) = Ok x.
Proof.
  intros H. unfold py_index.
  assert ((Z.of_nat k <? 0) = false) as E by (apply Z.ltb_ge; lia).
  cbv zeta. rewrite !E, Nat2Z.id, H. reflexivity.
Qed.

Lemma py_setitem_nat {A} (l : list A) (k : nat) (x : A) :
  (k < length l)%nat -> py_setitem l (Z.of_nat k) x = Ok (<[k:=x]> l).
Proof.
  intros H. unfold py_setitem.
  assert ((Z.of_nat k <? 0) = false) as E by (apply Z.ltb_ge; lia).
  assert ((Z.of_nat (length l) <=? Z.of_nat k) = false) as E'
    by (apply Z.leb_gt; lia).
  cbv zeta. rewrite !E, E', Nat2Z.id. reflexivity.
Qed.

Lemma location_value_as_coord (loc : list Z) :
  loc <> [] -> location_value loc = Ok (as_coord loc).
Proof.
  destruct loc as [|x [|y r]]; [done|reflexivity|]. intros _.
  unfold location_value.
  replace (1 <? Z.of_nat (length (x :: y :: r))) with true; [done|].
  symmetry. apply Z.ltb_lt. simpl length. lia.
Qed.

(** *** The successor seen from the last axis *)

Lemma zeros_snoc (shape : list Z) (n : Z) :
  zeros (shape ++ [n]) = zeros shape ++ [0].
Proof. unfold zeros. by rewrite map_app. Qed.

Lemma length_zeros (shape : list Z) : length (zeros shape) = length shape.
Proof. apply length_map. Qed.

Lemma succ_loc_snoc (shape : list Z) :
  forall (loc : list Z) (n x : Z),
    length shape = length loc ->
    succ_loc (shape ++ [n]) (loc ++ [x])
    = if x <? n - 1 then Some (loc ++ [x + 1])
      else (fun p => p ++ [0]) <$> succ_loc shape loc.
Proof.
  induction shape as [|a shape IH]; intros [|i loc] n x Hlen;
    try discriminate Hlen.
  - simpl. by destruct (x <? n - 1).
  - simpl in Hlen. simpl. rewrite IH by lia.
    destruct (x <? n - 1); [done|].
    destruct (succ_loc shape loc) as [r|]; simpl; [done|].
    destruct (i <? a - 1); simpl; [|done].
    by rewrite zeros_snoc.
Qed.

Lemma succ_loc_length (shape : list Z) :
  forall loc loc' : list Z,
    length loc = length shape ->
    succ_loc shape loc = Some loc' -> length loc' = length shape.
Proof.
  induction shape as [|n shape IH]; intros [|i loc] loc' Hlen; try done.
  simpl in *. destruct (succ_loc shape loc) as [r|] eqn:E.
  - intros [= <-]. simpl. f_equal. apply (IH loc); [lia|done].
  - destruct (i <? n - 1); [|done]. intros [= <-]. simpl.
    by rewrite length_zeros.
Qed.

(** *** The [while] loop computes the successor *)

Lemma while_loop_spec (shape : list Z) :
  forall (k : nat) (loc : list Z),
    length loc = length shape ->
    (k <= length shape)%nat ->
    while_loop k (running shape loc (Z.of_nat k - 1))
    = Some
        match succ_loc (take k shape) (take k loc) with
        | Some pre =>
            (location_value (pre ++ drop k loc),
             running shape (pre ++ drop k loc)
                     (Z.of_nat (length shape) - 1))
        | None =>
            (Raise StopIteration,
             running shape (zeros (take k shape) ++ drop k loc) (-1))
        end.
Proof.
  induction k as [|k IH]; intros loc Hlen Hk.
  - reflexivity.
  - replace (Z.of_nat (S k) - 1) with (Z.of_nat k) by lia.
    destruct (lookup_lt_is_Some_2 loc k) as [x Hx]; [lia|].
    destruct (lookup_lt_is_Some_2 shape k) as [n Hn]; [lia|].
    rewrite (take_S_r _ _ _ Hx), (take_S_r _ _ _ Hn).
    rewrite succ_loc_snoc by (rewrite !length_take; lia).
    cbn [while_loop running current_index].
    replace (0 <=? Z.of_nat k) with true by (symmetry; apply Z.leb_le; lia).
    unfold loop_body. cbn [current_location array_shape current_index running
                           first_item].
    rewrite (py_index_nat _ _ _ Hx), (py_index_nat _ _ _ Hn).
    destruct (x <? n - 1).
    + rewrite py_setitem_nat by lia.
      rewrite length_insert, Hlen.
      rewrite insert_take_drop by lia.
      rewrite (cons_middle (x + 1)), app_assoc.
      by destruct (location_value _).
    + rewrite py_setitem_nat by lia.
      fold (running shape (<[k:=0]> loc) (Z.of_nat k - 1)).
      rewrite IH by (rewrite ?length_insert; lia).
      rewrite take_insert_ge by lia.
      assert (drop k (<[k:=0]> loc) = 0 :: drop (S k) loc) as ->.
      { rewrite insert_take_drop by lia.
        rewrite drop_app_length'; [done|]. rewrite length_take. lia. }
      destruct (succ_loc (take k shape) (take k loc)) as [pre|]; simpl.
      * by rewrite (cons_middle 0), app_assoc.
      * by rewrite zeros_snoc, (cons_middle 0), app_assoc.
Qed.

(** [__next__] after the first item: the successor, or
    [StopIteration] with the location back at zero. *)
Lemma next_running (shape loc : list Z) :
  length loc = length shape ->
  __next__ (running shape loc (Z.of_nat (length shape) - 1))
  = Some
      match succ_loc shape loc with
      | Some loc' =>
          (location_value loc',
           running shape loc' (Z.of_nat (length shape) - 1))
      | None => (Raise StopIteration, running shape (zeros shape) (-1))
      end.
Proof.
  intros Hlen. unfold __next__. cbn [first_item running current_index].
  replace (Z.to_nat (Z.of_nat (length shape) - 1 + 1)) with (length shape)
    by lia.
  rewrite while_loop_spec by lia.
  rewrite !take_ge, drop_ge by lia.
  destruct (succ_loc shape loc); by rewrite app_nil_r.
Qed.

Lemma next_exhausted (shape loc : list Z) :
  __next__ (running shape loc (-1))
  = Some (Raise StopIteration, running shape loc (-1)).
Proof. reflexivity. Qed.

Lemma next_first (shape : list Z) :
  __next__ (init shape)
  = Some (location_value (zeros shape),
          running shape (zeros shape) (Z.of_nat (length shape) - 1)).
Proof.
  unfold __next__, init, running. cbn [first_item current_location
    array_shape current_index]. by rewrite length_map.
Qed.

(** *** Draining the iterator *)

Lemma chain_head (shape loc : list Z) (L : list (list Z)) :
  chain shape loc L -> exists T, L = loc :: T.
Proof. destruct 1; eauto. Qed.

Lemma collect_chain (shape : list Z) (loc : list Z) (L : list (list Z)) :
  chain shape loc L ->
  shape <> [] ->
  length loc = length shape ->
  forall fuel : nat,
    (length L <= fuel)%nat ->
    collect fuel (running shape loc (Z.of_nat (length shape) - 1))
    = Some (Ok (map as_coord (tail L)), running shape (zeros shape) (-1)).
Proof.
  intros Hchain Hshape.
  induction Hchain as [loc Hnone|loc loc' L Hsome Hchain IH];
    intros Hlen [|fuel] Hfuel; simpl in Hfuel; try lia.
  - cbn [collect]. by rewrite next_running, Hnone.
  - cbn [collect]. rewrite next_running, Hsome by done.
    pose proof (succ_loc_length _ _ _ Hlen Hsome) as Hlen'.
    rewrite location_value_as_coord
      by (intros ->; destruct shape; simpl in *; done).
    rewrite IH by (done || lia).
    destruct (chain_head _ _ _ Hchain) as [T ->]. reflexivity.
Qed.

Lemma collect_init (shape : list Z) (L : list (list Z)) :
  chain shape (zeros shape) L ->
  shape <> [] ->
  forall fuel : nat,
    (length L <= fuel)%nat ->
    collect (S fuel) (init shape)
    = Some (Ok (map as_coord L), running shape (zeros shape) (-1)).
Proof.
  intros Hchain Hshape fuel Hfuel.
  cbn [collect]. rewrite next_first.
  rewrite location_value_as_coord by (by destruct shape).
  rewrite (collect_chain shape (zeros shape) L)
    by (done || apply length_zeros).
  destruct (chain_head _ _ _ Hchain) as [T ->]. reflexivity.
Qed.

(** *** The chain of successors is the row-major enumeration *)

(** One block of the enumeration: the coordinates whose first
    component is [j]. *)
Definition block (L : list (list Z)) (j : Z) : list (list Z) :=
  map (cons j) L.

Lemma row_major_cons (n : Z) (shape : list Z) :
  row_major (n :: shape)
  = concat (map (block (row_major shape)) (seqZ 0 n)).
Proof. reflexivity. Qed.

Lemma chain_block_last (n i : Z) (shape r : list Z) (L : list (list Z)) :
  chain shape r L ->
  (i <? n - 1) = false ->
  chain (n :: shape) (i :: r) (block L i).
Proof.
  intros Hchain Hi.
  induction Hchain as [r Hnone|r r' L Hsome Hchain IH]; simpl.
  - apply chain_last. simpl. by rewrite Hnone, Hi.
  - apply (chain_step _ _ (i :: r')); [|done]. simpl. by rewrite Hsome.
Qed.

Lemma chain_block_next (n i : Z) (shape r : list Z) (L L' : list (list Z)) :
  chain shape r L ->
  (i <? n - 1) = true ->
  chain (n :: shape) ((i + 1) :: zeros shape) L' ->
  chain (n :: shape) (i :: r) (block L i ++ L').
Proof.
  intros Hchain Hi Hnext.
  induction Hchain as [r Hnone|r r' L Hsome Hchain IH]; simpl.
  - apply (chain_step _ _ ((i + 1) :: zeros shape)); [|done].
    simpl. by rewrite Hnone, Hi.
  - apply (chain_step _ _ (i :: r')); [|done]. simpl. by rewrite Hsome.
Qed.

Lemma chain_blocks (n : Z) (shape : list Z) (L : list (list Z)) :
  chain shape (zeros shape) L ->
  forall (m : nat) (i : Z),
    i + Z.of_nat m = n - 1 ->
    chain (n :: shape) (i :: zeros shape)
          (concat (map (block L) (seqZ i (Z.of_nat (S m))))).
Proof.
  intros Hchain. induction m as [|m IH]; intros i Hi.
  - rewrite seqZ_cons, seqZ_nil by lia. simpl. rewrite app_nil_r.
    apply chain_block_last; [done|]. apply Z.ltb_ge. lia.
  - rewrite seqZ_cons by lia. simpl concat.
    apply chain_block_next; [done|apply Z.ltb_lt; lia|].
    replace (Z.pred (Z.of_nat (S (S m)))) with (Z.of_nat (S m)) by lia.
    apply IH. lia.
Qed.

Lemma chain_row_major (shape : list Z) :
  Forall (fun n => 0 < n) shape ->
  chain shape (zeros shape) (row_major shape).
Proof.
  induction 1 as [|n shape Hn _ IH].
  - by apply chain_last.
  - rewrite row_major_cons.
    change (zeros (n :: shape)) with (0 :: zeros shape).
    replace (seqZ 0 n) with (seqZ 0 (Z.of_nat (S (Z.to_nat (n - 1)))))
      by (f_equal; lia).
    apply (chain_blocks n shape _ IH). lia.
Qed.

(** *** The row-major enumeration *)

Lemma In_blocks (L : list (list Z)) (js : list Z) (loc : list Z) :
  In loc (concat (map (block L) js))
  <-> exists j r, loc = j :: r /\ In j js /\ In r L.
Proof.
  rewrite in_concat. split.
  - intros (b & Hb & Hloc). apply in_map_iff in Hb.
    destruct Hb as (j & <- & Hj). apply in_map_iff in Hloc.
    destruct Hloc as (r & <- & Hr). by exists j, r.
  - intros (j & r & -> & Hj & Hr). exists (block L j). split.
    + apply in_map_iff. by exists j.
    + apply in_map_iff. by exists r.
Qed.

Lemma length_blocks (L : list (list Z)) (js : list Z) :
  length (concat (map (block L) js)) = (length js * length L)%nat.
Proof.
  induction js as [|j js IH]; [done|].
  simpl. unfold block at 1. by rewrite length_app, length_map, IH.
Qed.

Lemma row_major_length (shape : list Z) :
  Forall (fun n => 0 < n) shape ->
  Z.of_nat (length (row_major shape)) = product shape.
Proof.
  induction 1 as [|n shape Hn _ IH]; [done|].
  rewrite row_major_cons, length_blocks, length_seqZ, Nat2Z.inj_mul, IH.
  simpl. lia.
Qed.

(** The enumeration holds the coordinates within the bounds, and all of
    them. *)
Lemma In_row_major (shape : list Z) :
  forall loc : list Z, In loc (row_major shape) <-> in_bounds shape loc.
Proof.
  unfold in_bounds.
  induction shape as [|n shape IH]; intros loc.
  - simpl. split.
    + intros [<-|[]]. constructor.
    + intros H. inversion H. by left.
  - rewrite row_major_cons, In_blocks. split.
    + intros (j & r & -> & Hj & Hr).
      apply list_elem_of_In, elem_of_seqZ in Hj.
      constructor; [lia|]. by apply IH.
    + intros H. inversion H as [|? x ? r Hx Hr]; subst.
      exists x, r. split; [done|]. split; [|by apply IH].
      apply list_elem_of_In, elem_of_seqZ. lia.
Qed.

Lemma StronglySorted_block (L : list (list Z)) (j : Z) :
  StronglySorted lex_lt L -> StronglySorted lex_lt (block L j).
Proof.
  induction 1 as [|a L Hsorted IH Hall]; simpl; constructor; [done|].
  rewrite List.Forall_forall in *. intros b Hb.
  apply in_map_iff in Hb. destruct Hb as (r & <- & Hr).
  simpl. right. split; [done|]. by apply Hall.
Qed.

Lemma StronglySorted_blocks (L : list (list Z)) :
  StronglySorted lex_lt L ->
  forall (m : nat) (i : Z),
    StronglySorted lex_lt (concat (map (block L) (seqZ i (Z.of_nat m)))).
Proof.
  intros HL. induction m as [|m IH]; intros i.
  - rewrite seqZ_nil by lia. constructor.
  - rewrite seqZ_cons by lia. simpl concat.
    replace (Z.pred (Z.of_nat (S m))) with (Z.of_nat m) by lia.
    apply StronglySorted_app_2; [|by apply StronglySorted_block|apply IH].
    intros a b Ha Hb.
    apply list_elem_of_In, in_map_iff in Ha. destruct Ha as (r & <- & _).
    apply list_elem_of_In, In_blocks in Hb.
    destruct Hb as (j & r' & -> & Hj & _).
    apply list_elem_of_In, elem_of_seqZ in Hj. simpl. left. lia.
Qed.

Lemma row_major_sorted (shape : list Z) :
  StronglySorted lex_lt (row_major shape).
Proof.
  induction shape as [|n shape IH].
  - repeat constructor.
  - rewrite row_major_cons.
    destruct (Z.le_gt_cases n 0).
    + rewrite seqZ_nil by done. constructor.
    + replace n with (Z.of_nat (Z.to_nat n)) by lia.
      by apply StronglySorted_blocks.
Qed.

Lemma lex_lt_irrefl (a : list Z) : ~ lex_lt a a.
Proof.
  induction a as [|x a IH]; simpl; [tauto|].
  intros [?|[_ ?]]; [lia|tauto].
Qed.

Lemma StronglySorted_NoDup (L : list (list Z)) :
  StronglySorted lex_lt L -> NoDup L.
Proof.
  induction 1 as [|a L Hsorted IH Hall]; constructor; [|done].
  intros Ha. rewrite List.Forall_forall in Hall.
  apply (lex_lt_irrefl a), Hall. by apply list_elem_of_In.
Qed.

Lemma as_coord_inj (a b : list Z) : as_coord a = as_coord b -> a = b.
Proof.
  destruct a as [|x [|x' a]], b as [|y [|y' b]]; simpl; congruence.
Qed.

Lemma NoDup_as_coord (L : list (list Z)) :
  NoDup L -> NoDup (map as_coord L).
Proof.
  induction 1 as [|a L Ha HL IH]; simpl; constructor; [|done].
  intros H. apply list_elem_of_In, in_map_iff in H.
  destruct H as (b & Hb & Hin). apply as_coord_inj in Hb. subst b.
  by apply Ha, list_elem_of_In.
Qed.

(** The first and the last coordinate. *)
Lemma last_block (L : list (list Z)) (j : Z) :
  last (block L j) = cons j <$> last L.
Proof.
  induction L as [|a [|b L] IH]; [done|done|].
  change (block (a :: b :: L) j) with ((j :: a) :: (j :: b) :: block L j).
  rewrite !last_cons_cons. exact IH.
Qed.

Lemma row_major_last (shape : list Z) :
  Forall (fun n => 0 < n) shape ->
  last (row_major shape) = Some (map (fun n => n - 1) shape).
Proof.
  induction 1 as [|n shape Hn _ IH]; [done|].
  rewrite row_major_cons.
  replace n with ((n - 1) + 1) at 1 by lia.
  rewrite seqZ_app by lia.
  rewrite (seqZ_cons _ 1), (seqZ_nil _ (Z.pred 1)) by lia.
  rewrite map_app, concat_app. simpl concat. rewrite app_nil_r.
  rewrite last_app, last_block, IH. simpl. by rewrite Z.add_0_l.
Qed.

Lemma row_major_head (shape : list Z) :
  Forall (fun n => 0 < n) shape ->
  head (row_major shape) = Some (zeros shape).
Proof.
  intros H. destruct (chain_head _ _ _ (chain_row_major shape H)) as [T ->].
  reflexivity.
Qed.

End IndexIter.

(** C2, as stated, fails at rank zero: the empty shape is a tuple of
    positive sizes whose product is 1, and the first call of [__next__]
    raises [IndexError] at [self.current_location[0]] instead of handing
    out the empty tuple. *)
Lemma ArrayIndexIter_rank_zero_raises :
  Forall (fun n => 0 < n) ([] : list Z)
  /\ ArrayIndexIter.product [] = 1
  /\ ArrayIndexIter.row_major [] = [[]]
  /\ ArrayIndexIter.__next__ (ArrayIndexIter.init [])
     = Some (Raise IndexError, running [] [] (-1))
  /\ ArrayIndexIter.collect 2 (ArrayIndexIter.init [])
     = Some (Raise IndexError, running [] [] (-1)).
Proof. repeat split. constructor. Qed.

(** C2, amended.  For every shape of rank at least one with positive
    sizes, draining a fresh [ArrayIndexIter] hands out the row-major
    enumeration of the shape and then stops: as many coordinates as the
    product of the sizes, exactly the coordinates with every component
    between 0 and its size minus one, without duplicates, in strictly
    increasing lexicographic order (last axis fastest), the first all
    zero and the last all size minus one, each as an integer for rank
    one and as a tuple of the rank otherwise.  After that every call of
    [__next__] raises [StopIteration] again. *)
Theorem ArrayIndexIter_row_major (shape : list Z) :
  shape <> [] ->
  Forall (fun n => 0 < n) shape ->
  let coords := ArrayIndexIter.row_major shape in
  let final := running shape (zeros shape) (-1) in
  (forall fuel : nat,
      (length coords <= fuel)%nat ->
      ArrayIndexIter.collect (S fuel) (ArrayIndexIter.init shape)
      = Some (Ok (map ArrayIndexIter.as_coord coords), final))
  /\ ArrayIndexIter.__next__ final = Some (Raise StopIteration, final)
  /\ Z.of_nat (length coords) = ArrayIndexIter.product shape
  /\ (forall loc, In loc coords <-> ArrayIndexIter.in_bounds shape loc)
  /\ NoDup (map ArrayIndexIter.as_coord coords)
  /\ StronglySorted ArrayIndexIter.lex_lt coords
  /\ head coords = Some (zeros shape)
  /\ last coords = Some (map (fun n => n - 1) shape)
  /\ (forall loc, In loc coords ->
        match shape with
        | [_] => exists x, ArrayIndexIter.as_coord loc = ArrayIndexIter.CInt x
        | _ => ArrayIndexIter.as_coord loc = ArrayIndexIter.CTuple loc
               /\ length loc = length shape
        end).
Proof.
  intros Hshape Hpos coords final.
  split; [|split; [|split; [|split; [|split; [|split; [|split; [|split]]]]]]].
  - intros fuel Hfuel. apply collect_init; [|done|done].
    by apply chain_row_major.
  - reflexivity.
  - by apply row_major_length.
  - apply In_row_major.
  - apply NoDup_as_coord, StronglySorted_NoDup, row_major_sorted.
  - apply row_major_sorted.
  - by apply row_major_head.
  - by apply row_major_last.
  - intros loc Hloc. apply In_row_major in Hloc.
    pose proof (Forall2_length _ _ _ Hloc) as Hlen.
    destruct shape as [|n [|n' shape]]; [done| |].
    + destruct loc as [|x [|y loc]]; try discriminate Hlen. by exists x.
    + destruct loc as [|x [|y loc]]; try discriminate Hlen. done.
Qed.

Lemma ArrayIndexIter_row_major_witness :
  ArrayIndexIter.collect 7 (ArrayIndexIter.init [2; 3])
  = Some (Ok (map ArrayIndexIter.CTuple
                [[0; 0]; [0; 1]; [0; 2]; [1; 0]; [1; 1]; [1; 2]]),
          running [2; 3] [0; 0] (-1)).
Proof.
  apply (proj1 (ArrayIndexIter_row_major [2; 3]
                  ltac:(discriminate)
                  ltac:(repeat constructor)) 6%nat).
  simpl. lia.
Defined.

(** * Further properties of the module *)

(** ** Traversal of nested lists *)

Section Traversal.
Import ArrayUtil.

Lemma flatten_list (items : list value) :
  flatten (VList items) = flatten_items items.
Proof. reflexivity. Qed.

Lemma flatten_scalar (t : value) :
  isinstance_list t = false -> flatten t = [t].
Proof. by destruct t. Qed.

Lemma next_item_values (t : value) :
  forall (new_list : bool) (nesting_change : Z) (end_of_list : bool),
    map trav_item (next_item t new_list nesting_change end_of_list)
    = flatten t.
Proof.
  induction t as [| | | | |items IH] using value_tree_ind; try done.
  intros new_list nesting_change end_of_list.
  rewrite next_item_list, flatten_list.
  generalize (Z.of_nat (length items)) as len.
  generalize 1 as list_size. revert nesting_change.
  induction IH as [|item rest Hitem _ IHrest];
    intros nesting_change list_size len; [done|].
  simpl. destruct (isinstance_list item) eqn:E.
  - by rewrite map_app, Hitem, IHrest.
  - rewrite (flatten_scalar item E). simpl. by rewrite IHrest.
Qed.

Lemma Zeqb_bool_decide (a b : Z) : (a =? b) = bool_decide (a = b).
Proof. destruct (Z.eqb_spec a b); by case_bool_decide. Qed.

Lemma next_items_flat (len : Z) (rest : list value) :
  Forall (fun x => isinstance_list x = false) rest ->
  forall (list_size nesting_change : Z) (i : nat) (x : value),
    rest !! i = Some x ->
    next_items len rest list_size nesting_change !! i
    = Some (x, list_size + Z.of_nat i =? len, list_size + Z.of_nat i =? 1,
            if decide (i = 0%nat) then nesting_change else 0).
Proof.
  induction 1 as [|item rest Hitem _ IH];
    intros list_size nesting_change i x Hx; [done|].
  simpl. rewrite Hitem. destruct i as [|i]; simpl in *.
  - injection Hx as ->. by rewrite Z.add_0_r.
  - rewrite (IH _ _ _ _ Hx).
    replace (list_size + 1 + Z.of_nat i) with (list_size + Z.pos (Pos.of_succ_nat i))
      by lia.
    by destruct (decide (i = 0%nat)).
Qed.

Lemma is_empty_list_cons (item : value) (rest : list value) :
  is_empty_list (VList (item :: rest))
  = if isinstance_list item then
      if negb (is_empty_list item) then false else is_empty_list (VList rest)
    else false.
Proof. reflexivity. Qed.

Lemma is_empty_list_flatten (t : value) :
  isinstance_list t = true -> (is_empty_list t = true <-> flatten t = []).
Proof.
  induction t as [| | | | |items IH] using value_tree_ind; try done.
  intros _. induction IH as [|item rest Hitem _ IHrest]; [done|].
  rewrite is_empty_list_cons, flatten_list. simpl.
  rewrite <- flatten_list.
  destruct (isinstance_list item) eqn:E.
  - specialize (Hitem eq_refl).
    destruct (is_empty_list item); simpl.
    + rewrite (proj1 Hitem eq_refl). simpl. exact IHrest.
    + split; [done|]. intros H. apply app_eq_nil in H.
      destruct H as [H _]. apply Hitem in H. done.
  - rewrite (flatten_scalar item E). done.
Qed.

Lemma first_item_scalar (t : value) :
  isinstance_list t = false -> first_item t = t.
Proof. by destruct t. Qed.

Lemma first_item_head (t : value) :
  no_empty_list t = true -> head (flatten t) = Some (first_item t).
Proof.
  induction t as [| | | | |items IH] using value_tree_ind; try done.
  destruct IH as [|item rest Hitem _]; [done|].
  intros H. simpl in H.
  apply andb_true_iff in H. destruct H as [H _].
  specialize (Hitem H).
  rewrite flatten_list. simpl. rewrite head_app, Hitem.
  destruct (isinstance_list item) eqn:E; [done|].
  by rewrite (first_item_scalar item E).
Qed.

End Traversal.

(** X1.  Whatever flags it is started with, [next_item] yields one record
    for every scalar leaf of the tree, in depth-first, left-to-right
    order: the first components of the records are the flattened tree. *)
Theorem next_item_yields_leaves_in_order (t : value) (new_list : bool)
    (nesting_change : Z) (end_of_list : bool) :
  map trav_item (ArrayUtil.next_item t new_list nesting_change end_of_list)
  = flatten t.
Proof. apply next_item_values. Qed.

(** X2.  On a list of scalars the record of the item at position [i]
    carries the item, [end_of_list] exactly at the last position,
    [new_list] exactly at the first position, and the nesting change the
    traversal was started with at the first position and 0 after it. *)
Theorem next_item_flat_list_flags (items : list value) (new_list : bool)
    (nesting_change : Z) (end_of_list : bool) (i : nat) (x : value) :
  Forall (fun x => isinstance_list x = false) items ->
  items !! i = Some x ->
  ArrayUtil.next_item (VList items) new_list nesting_change end_of_list !! i
  = Some (x, bool_decide (S i = length items), bool_decide (i = 0%nat),
          if decide (i = 0%nat) then nesting_change else 0).
Proof.
  intros Hflat Hx. rewrite next_item_list.
  rewrite (next_items_flat _ _ Hflat _ _ _ _ Hx), !Zeqb_bool_decide.
  do 3 f_equal; [f_equal|]; apply bool_decide_ext; lia.
Qed.

Lemma next_item_flat_list_flags_witness :
  ArrayUtil.next_item (VList [VInt 4; VStr "a"; VNone]) true 2 true !! 2%nat
  = Some (VNone, true, false, 0).
Proof.
  apply (next_item_flat_list_flags [VInt 4; VStr "a"; VNone] true 2 true
           2%nat VNone).
  - repeat constructor.
  - reflexivity.
Defined.

(** X3.  [is_empty_list] on a list is [True] exactly when the list holds
    no scalar at any depth. *)
Theorem is_empty_list_iff_no_leaf (items : list value) :
  ArrayUtil.is_empty_list (VList items) = true <-> flatten (VList items) = [].
Proof. by apply is_empty_list_flatten. Qed.

(** X4.  On a tree in which no list is empty, [first_item] is the first
    scalar leaf of the tree, the one [next_item] yields first. *)
Theorem first_item_is_first_leaf (t : value) :
  no_empty_list t = true ->
  head (map trav_item (ArrayUtil.next_item t true 0 true))
  = Some (ArrayUtil.first_item t).
Proof.
  intros H. rewrite next_item_values. by apply first_item_head.
Qed.

Lemma first_item_is_first_leaf_witness :
  head (map trav_item
          (ArrayUtil.next_item
             (VList [VList [VList [VInt 7]; VInt 8]; VInt 9]) true 0 true))
  = Some (VInt 7).
Proof.
  apply (first_item_is_first_leaf
           (VList [VList [VList [VInt 7]; VInt 8]; VInt 9])).
  reflexivity.
Defined.

(** ** [MultiListIter] *)

Section MultiList.
Import MultiListIter.

Definition present (detailed : bool) (record : trav) : item :=
  if detailed then Detailed record else Plain (trav_item record).

Lemma collect_records (records : list trav) (detailed : bool) :
  forall fuel : nat,
    (length records < fuel)%nat ->
    collect fuel {| detailed_info := detailed; val_iter := records |}
    = Some (map (present detailed) records,
            {| detailed_info := detailed; val_iter := [] |}).
Proof.
  induction records as [|r records IH]; intros [|fuel] Hfuel;
    simpl in Hfuel; try lia; [done|].
  cbn [collect __next__ val_iter detailed_info].
  rewrite IH by lia. reflexivity.
Qed.

End MultiList.

(** X5.  A [MultiListIter] without detailed information hands out the
    scalar leaves of the tree in depth-first order and then raises
    [StopIteration], and goes on raising it; with detailed information it
    hands out the records of [next_item]. *)
Theorem MultiListIter_yields_leaves (multi_list : value) :
  let stopped detailed :=
    {| MultiListIter.detailed_info := detailed;
       MultiListIter.val_iter := [] |} in
  MultiListIter.collect (S (length (flatten multi_list)))
    (MultiListIter.init multi_list false)
  = Some (map MultiListIter.Plain (flatten multi_list), stopped false)
  /\ MultiListIter.collect (S (length (flatten multi_list)))
       (MultiListIter.init multi_list true)
     = Some (map MultiListIter.Detailed
               (ArrayUtil.next_item multi_list true 0 true), stopped true)
  /\ forall detailed,
       MultiListIter.__next__ (stopped detailed)
       = (Raise StopIteration, stopped detailed).
Proof.
  intros stopped.
  assert (length (ArrayUtil.next_item multi_list true 0 true)
          = length (flatten multi_list)) as Hlen.
  { by rewrite <- (next_item_values multi_list true 0 true), length_map. }
  split; [|split; [|done]]; unfold MultiListIter.init.
  - rewrite collect_records by lia.
    rewrite <- (next_item_values multi_list true 0 true), map_map.
    reflexivity.
  - rewrite collect_records by lia. reflexivity.
Qed.

(** ** [max_multi_dim_list_size] *)

Section MaxLength.
Import ArrayUtil.

Lemma max_length_loop_spec (items : list value) :
  forall (m0 : Z) (lens : list Z),
    Forall2 (fun item n => py_len item = Ok n) items lens ->
    exists m, max_length_loop items m0 = Ok m
              /\ (m = m0 \/ In m lens)
              /\ m0 <= m /\ Forall (fun n => n <= m) lens.
Proof.
  induction items as [|item items IH]; intros m0 lens Hlens.
  - inversion Hlens; subst. exists m0. repeat split; [by left|lia|constructor].
  - inversion Hlens as [|? n ? lens' Hn Hrest]; subst.
    simpl. rewrite Hn. simpl.
    destruct (Z.ltb_spec m0 n) as [Hlt|Hge].
    + destruct (IH n lens' Hrest) as (m & -> & Hin & Hle & Hall).
      exists m. split; [done|]. split; [|split].
      * right. destruct Hin as [->|Hin]; [by left|by right].
      * lia.
      * constructor; [lia|done].
    + destruct (IH m0 lens' Hrest) as (m & -> & Hin & Hle & Hall).
      exists m. split; [done|]. split; [|split].
      * destruct Hin as [->|Hin]; [by left|by right; right].
      * lia.
      * constructor; [lia|done].
Qed.

Lemma max_length_loop_no_len (items : list value) :
  forall m0 : Z,
    Exists (fun item => py_len item = Raise TypeError) items ->
    (forall item, In item items ->
                  py_len item = Raise TypeError \/ exists n, py_len item = Ok n) ->
    max_length_loop items m0 = Raise TypeError.
Proof.
  induction items as [|item items IH]; intros m0 Hex Hall.
  - inversion Hex.
  - simpl. destruct (Hall item (or_introl eq_refl)) as [->|[n Hn]]; [done|].
    rewrite Hn. simpl.
    assert (Exists (fun item => py_len item = Raise TypeError) items) as Hex'.
    { inversion Hex as [? ? H|]; subst; [congruence|done]. }
    assert (forall it, In it items ->
              py_len it = Raise TypeError \/ exists n, py_len it = Ok n) as Hall'.
    { intros it Hit. apply Hall. by right. }
    destruct (m0 <? n); by apply IH.
Qed.

Lemma py_len_cases (item : value) :
  py_len item = Raise TypeError \/ exists n, py_len item = Ok n.
Proof. destruct item; simpl; eauto. Qed.

End MaxLength.

(** X6.  When every item has a length, [max_multi_dim_list_size] returns
    the greatest of the lengths, and -1 for a list without items; when
    some item has no length -- a number or [None] -- it raises
    [TypeError]. *)
Theorem max_multi_dim_list_size_is_max (current_list : list value) :
  (forall lens : list Z,
      Forall2 (fun item n => py_len item = Ok n) current_list lens ->
      exists m, ArrayUtil.max_multi_dim_list_size current_list = Ok m
                /\ Forall (fun n => n <= m) lens
                /\ (lens = [] -> m = -1)
                /\ (lens <> [] -> In m lens))
  /\ (Exists (fun item => py_len item = Raise TypeError) current_list ->
      ArrayUtil.max_multi_dim_list_size current_list = Raise TypeError).
Proof.
  split.
  - intros lens Hlens.
    destruct (max_length_loop_spec current_list (-1) lens Hlens)
      as (m & Hm & Hin & Hle & Hall).
    exists m. split; [done|]. split; [done|]. split.
    + intros ->. destruct Hin as [->|[]]. done.
    + intros Hne. destruct Hin as [->|Hin]; [|done].
      destruct lens as [|n lens]; [done|]. exfalso.
      inversion Hall as [|? ? Hn _]; subst.
      inversion Hlens as [|item ? ? ? Hitem _]; subst.
      destruct item; simpl in Hitem; try done; injection Hitem as <-; lia.
  - intros Hex. apply max_length_loop_no_len; [done|].
    intros item _. apply py_len_cases.
Qed.

Lemma max_multi_dim_list_size_is_max_witness :
  exists m,
    ArrayUtil.max_multi_dim_list_size
      [VList [VInt 1; VInt 2]; VList []; VStr "abc"] = Ok m
    /\ Forall (fun n => n <= m) [2; 0; 3].
Proof.
  destruct (proj1 (max_multi_dim_list_size_is_max
                     [VList [VInt 1; VInt 2]; VList []; VStr "abc"])
              [2; 0; 3] ltac:(repeat constructor))
    as (m & Hm & Hall & _).
  exists m. by split.
Defined.

(** ** [clean_numeric] *)

Section CleanNumeric.
Import PyStr ArrayUtil.

Definition trim_numeric (s : string) : string :=
  rtrim_numeric (ltrim_numeric s).

Definition not_numeric (c : ascii) : bool := negb (numeric_chars c).

Lemma rtrim_numeric_cons (c : ascii) (r : string) :
  rtrim_numeric (String c r)
  = match rtrim_numeric r with
    | EmptyString =>
        if numeric_chars c then String c EmptyString else EmptyString
    | r' => String c r'
    end.
Proof. reflexivity. Qed.

Lemma last_char_cons (c d : ascii) (r : string) :
  last_char (String c (String d r)) = last_char (String d r).
Proof. reflexivity. Qed.

Lemma drop_last_cons (c d : ascii) (r : string) :
  drop_last (String c (String d r)) = String c (drop_last (String d r)).
Proof. reflexivity. Qed.

(** A string that ends in a numeric character has nothing to trim on the
    right. *)
Lemma rtrim_numeric_id (s : string) (z : ascii) :
  last_char s = Some z -> numeric_chars z = true -> rtrim_numeric s = s.
Proof.
  induction s as [|c r IH]; [done|]. intros Hlast Hz.
  destruct r as [|d r].
  - injection Hlast as ->. simpl. by rewrite Hz.
  - rewrite last_char_cons in Hlast. rewrite rtrim_numeric_cons.
    by rewrite (IH Hlast Hz).
Qed.

Lemma rtrim_numeric_drop_last (s : string) (z : ascii) :
  last_char s = Some z -> numeric_chars z = false ->
  rtrim_numeric (drop_last s) = rtrim_numeric s.
Proof.
  induction s as [|c r IH]; [done|]. intros Hlast Hz.
  destruct r as [|d r].
  - injection Hlast as ->. simpl. by rewrite Hz.
  - rewrite last_char_cons in Hlast.
    rewrite drop_last_cons, !rtrim_numeric_cons. by rewrite (IH Hlast Hz).
Qed.

Lemma trim_numeric_drop_last (s : string) (z : ascii) :
  last_char s = Some z -> numeric_chars z = false ->
  trim_numeric (drop_last s) = trim_numeric s.
Proof.
  unfold trim_numeric.
  induction s as [|c r IH]; [done|]. intros Hlast Hz.
  destruct r as [|d r].
  - injection Hlast as ->. simpl. by rewrite Hz.
  - rewrite last_char_cons in Hlast. rewrite drop_last_cons.
    cbn [ltrim_numeric]. destruct (numeric_chars c) eqn:Hc.
    + rewrite <- drop_last_cons.
      by apply (rtrim_numeric_drop_last (String c (String d r)) z).
    + by apply IH.
Qed.

Lemma last_char_is_Some (a : ascii) (r : string) :
  exists z, last_char (String a r) = Some z.
Proof.
  revert a. induction r as [|d r IH]; intros a; [by exists a|].
  rewrite last_char_cons. apply IH.
Qed.

Lemma trim_numeric_clean (s : string) :
  unclean s = false -> trim_numeric s = s.
Proof.
  unfold unclean, trim_numeric. destruct s as [|a r]; [done|].
  cbn [first_char].
  destruct (last_char_is_Some a r) as [z Hlast]. rewrite Hlast.
  intros H. apply orb_false_iff in H. destruct H as [Ha Hz].
  apply negb_false_iff in Ha, Hz.
  cbn [ltrim_numeric]. rewrite Ha. by apply (rtrim_numeric_id _ z).
Qed.

Lemma length_drop_last (a : ascii) (r : string) :
  S (String.length (drop_last (String a r))) = String.length (String a r).
Proof.
  revert a. induction r as [|d r IH]; intros a; [done|].
  rewrite drop_last_cons. cbn [String.length]. f_equal.
  rewrite IH. reflexivity.
Qed.

(** A pass of the loop removes characters and keeps the trimmed text. *)
Lemma clean_step_spec (s : string) :
  unclean s = true ->
  trim_numeric (clean_step s) = trim_numeric s
  /\ (String.length (clean_step s) < String.length s)%nat.
Proof.
  unfold unclean, clean_step. destruct s as [|a r]; [done|].
  cbn [first_char drop_first].
  destruct (last_char_is_Some a r) as [z Hz]. rewrite Hz.
  destruct (numeric_chars a) eqn:Ha; cbn [negb orb].
  - rewrite Hz. intros Hnz. rewrite Hnz.
    apply negb_true_iff in Hnz. split.
    + by apply (trim_numeric_drop_last _ z).
    + pose proof (length_drop_last a r). lia.
  - intros _.
    assert (trim_numeric (String a r) = trim_numeric r) as Ht.
    { unfold trim_numeric. cbn [ltrim_numeric]. by rewrite Ha. }
    rewrite Ht. destruct r as [|d r]; [split; [done|simpl; lia]|].
    destruct (last_char_is_Some d r) as [z' Hz']. rewrite Hz'.
    destruct (numeric_chars z') eqn:Hn; cbn [negb].
    + split; [done|simpl; lia].
    + split; [by apply (trim_numeric_drop_last _ z')|].
      pose proof (length_drop_last d r). simpl String.length in *. lia.
Qed.

Lemma clean_loop_trim (fuel : nat) :
  forall s : string,
    (String.length s <= fuel)%nat ->
    clean_loop fuel s = Some (trim_numeric s).
Proof.
  induction fuel as [|fuel IH]; intros s Hlen.
  - destruct s; [done|simpl in Hlen; lia].
  - cbn [clean_loop]. destruct (unclean s) eqn:Hu.
    + destruct (clean_step_spec s Hu) as [Ht Hl].
      rewrite IH by lia. by rewrite Ht.
    + by rewrite trim_numeric_clean.
Qed.

(** The trimmed text is clean. *)
Lemma ltrim_numeric_head (s : string) :
  ltrim_numeric s = EmptyString
  \/ exists a r, ltrim_numeric s = String a r /\ numeric_chars a = true.
Proof.
  induction s as [|c r IH]; [by left|]. simpl.
  destruct (numeric_chars c) eqn:Hc; [right; by exists c, r|done].
Qed.

Lemma rtrim_numeric_last (s : string) (z : ascii) :
  last_char (rtrim_numeric s) = Some z -> numeric_chars z = true.
Proof.
  induction s as [|c r IH]; [done|]. rewrite rtrim_numeric_cons.
  destruct (rtrim_numeric r) as [|d r'] eqn:E.
  - destruct (numeric_chars c) eqn:Hc; [|done]. by intros [= <-].
  - rewrite last_char_cons. exact IH.
Qed.

Lemma rtrim_numeric_first (a : ascii) (r : string) :
  rtrim_numeric (String a r) = EmptyString
  \/ exists r', rtrim_numeric (String a r) = String a r'.
Proof.
  rewrite rtrim_numeric_cons. destruct (rtrim_numeric r).
  - destruct (numeric_chars a); [right; by eexists|by left].
  - right. by eexists.
Qed.

Lemma trim_numeric_unclean (s : string) : unclean (trim_numeric s) = false.
Proof.
  unfold trim_numeric.
  destruct (ltrim_numeric_head s) as [->|(a & r & -> & Ha)]; [done|].
  destruct (rtrim_numeric_first a r) as [->|[r' E]]; [done|].
  unfold unclean. rewrite E. cbn [first_char].
  destruct (last_char_is_Some a r') as [z Hz]. rewrite Hz.
  rewrite <- E in Hz. apply rtrim_numeric_last in Hz. by rewrite Ha, Hz.
Qed.

(** What is trimmed away holds no numeric character. *)
Lemma ltrim_numeric_split (s : string) :
  exists pre, s = pre +:+ ltrim_numeric s /\ all_chars not_numeric pre = true.
Proof.
  induction s as [|c r (pre & Hpre & Hall)]; [by exists EmptyString|].
  simpl. destruct (numeric_chars c) eqn:Hc; [by exists EmptyString|].
  exists (String c pre). split.
  - change (String c r = String c (pre +:+ ltrim_numeric r)).
    by rewrite <- Hpre.
  - simpl. unfold not_numeric at 1. by rewrite Hc.
Qed.

Lemma rtrim_numeric_split (s : string) :
  exists post, s = rtrim_numeric s +:+ post /\ all_chars not_numeric post = true.
Proof.
  induction s as [|c r (post & Hpost & Hall)]; [by exists EmptyString|].
  rewrite rtrim_numeric_cons.
  destruct (rtrim_numeric r) as [|d r'] eqn:E.
  - simpl in Hpost. subst r.
    destruct (numeric_chars c) eqn:Hc.
    + by exists post.
    + exists (String c post). split; [done|].
      simpl. unfold not_numeric at 1. by rewrite Hc.
  - exists post. split; [|done].
    change (String c r = String c (String d r' +:+ post)).
    by rewrite <- Hpost.
Qed.

End CleanNumeric.

(** X7.  [clean_numeric] on a string returns the string without its
    leading and trailing characters that are not digits, ['.'] or ['-']:
    the loop ends, and what it leaves is the text trimmed on both sides.
    Anything that is no string is returned unchanged. *)
Theorem clean_numeric_trims_both_ends :
  (forall s : string,
      ArrayUtil.clean_numeric (VStr s)
      = Some (VStr (rtrim_numeric (ltrim_numeric s))))
  /\ (forall v : value,
        (forall s, v <> VStr s) -> ArrayUtil.clean_numeric v = Some v).
Proof.
  split.
  - intros s. unfold ArrayUtil.clean_numeric.
    by rewrite clean_loop_trim.
  - intros v Hv. destruct v; try done. by destruct (Hv s).
Qed.

Lemma clean_numeric_trims_both_ends_witness :
  ArrayUtil.clean_numeric (VInt 5) = Some (VInt 5)
  /\ ArrayUtil.clean_numeric (VStr "  -12.5xyz") = Some (VStr "-12.5").
Proof.
  split.
  - apply (proj2 clean_numeric_trims_both_ends (VInt 5)). done.
  - apply (proj1 clean_numeric_trims_both_ends "  -12.5xyz").
Defined.

(** X8.  The result of [clean_numeric] on a string is a piece of that
    string: only characters that are not numeric are cut off in front
    and behind.  The result is empty or begins and ends with a numeric
    character, and cleaning it again changes nothing. *)
Theorem clean_numeric_result_is_clean (s : string) :
  exists (r pre post : string),
    ArrayUtil.clean_numeric (VStr s) = Some (VStr r)
    /\ s = pre +:+ r +:+ post
    /\ all_chars (fun c => negb (ArrayUtil.numeric_chars c)) pre = true
    /\ all_chars (fun c => negb (ArrayUtil.numeric_chars c)) post = true
    /\ ArrayUtil.unclean r = false
    /\ ArrayUtil.clean_numeric (VStr r) = Some (VStr r).
Proof.
  destruct (ltrim_numeric_split s) as (pre & Hpre & Hall_pre).
  destruct (rtrim_numeric_split (ltrim_numeric s)) as (post & Hpost & Hall_post).
  exists (trim_numeric s), pre, post.
  split; [|split; [|split; [done|split; [done|split]]]].
  - unfold ArrayUtil.clean_numeric. by rewrite clean_loop_trim.
  - unfold trim_numeric. by rewrite <- Hpost.
  - apply trim_numeric_unclean.
  - unfold ArrayUtil.clean_numeric. rewrite clean_loop_trim by done.
    by rewrite (trim_numeric_clean _ (trim_numeric_unclean s)).
Qed.

(** ** More on [split_data_line] *)

Section Fields.
Import PyStr ArrayUtil.

Lemma length_set_last (arr : list string) (new : string) :
  length (set_last arr new) = length arr.
Proof.
  induction arr as [|x [|y arr] IH]; [done|done|].
  change (set_last (x :: y :: arr) new) with (x :: set_last (y :: arr) new).
  simpl length in *. by rewrite IH.
Qed.

(** On tokens that are not empty both loops end without an exception and
    leave at most one field per token. *)
Lemma loops_bound (clean_line : list string) :
  Forall (fun t => t <> EmptyString) clean_line ->
  forall arr,
    (exists fields, fix_quotes clean_line arr = Ok fields
        /\ (length fields <= length arr + length clean_line)%nat)
    /\ (arr <> [] ->
        exists fields, open_quote clean_line arr = Ok fields
          /\ (length fields <= length arr + length clean_line)%nat).
Proof.
  induction 1 as [|item rest Hitem Hrest IH]; intros arr.
  - split; simpl; eauto with lia.
  - assert (forall arr',
              (length arr' <= S (length arr))%nat ->
              exists fields, fix_quotes rest arr' = Ok fields
                /\ (length fields <= length arr + length (item :: rest))%nat)
      as Hfix.
    { intros arr' Hlen. destruct (proj1 (IH arr')) as (fields & Hf & Hb).
      exists fields. split; [done|]. simpl. lia. }
    assert (forall arr',
              arr' <> [] -> (length arr' <= S (length arr))%nat ->
              exists fields, open_quote rest arr' = Ok fields
                /\ (length fields <= length arr + length (item :: rest))%nat)
      as Hopen.
    { intros arr' Hne Hlen.
      destruct (proj2 (IH arr') Hne) as (fields & Hf & Hb).
      exists fields. split; [done|]. simpl. lia. }
    destruct (last_char_nonempty item Hitem) as [l Hl]. split.
    + cbn [fix_quotes].
      destruct (negb (is_delimiter item)); [|apply Hfix; lia].
      destruct item as [|c body]; [done|].
      destruct (is_quote c);
        [|apply Hfix; rewrite length_app; simpl; lia].
      rewrite Hl. destruct (is_quote l).
      * apply Hfix. rewrite length_app. simpl. lia.
      * apply Hopen; [by destruct arr|]. rewrite length_app. simpl. lia.
    + intros Harr. cbn [open_quote]. rewrite Hl.
      destruct (last arr) as [field|] eqn:Hlast;
        [|by apply last_None in Hlast].
      destruct (is_quote l).
      * apply Hfix. rewrite length_set_last. lia.
      * apply Hopen; [by apply set_last_nonempty|].
        rewrite length_set_last. lia.
Qed.

(** The outer loop on tokens none of which opens a quote. *)
Lemma fix_quotes_plain (clean_line : list string) :
  Forall (fun t => forall c, first_char t = Some c -> is_quote c = false)
         clean_line ->
  forall arr,
    fix_quotes clean_line arr
    = Ok (arr ++ filter (fun t => is_delimiter t = false) clean_line).
Proof.
  induction 1 as [|item rest Hitem _ IH]; intros arr.
  - simpl. by rewrite app_nil_r.
  - cbn [fix_quotes]. destruct (is_delimiter item) eqn:Hd; cbn [negb].
    + rewrite filter_cons_False by congruence. apply IH.
    + rewrite filter_cons_True by done.
      destruct item as [|c body].
      * rewrite IH, <- app_assoc. reflexivity.
      * rewrite (Hitem c eq_refl), IH, <- app_assoc. reflexivity.
Qed.

(** An empty token while a quote is open. *)
Lemma open_quote_empty_token (rest arr : list string) :
  open_quote (EmptyString :: rest) arr = Raise IndexError.
Proof. reflexivity. Qed.

(** *** Joining and splitting fields *)

Definition no_space (c : ascii) : bool := negb (isspace c).

Lemma append_nil_r (s : string) : s +:+ EmptyString = s.
Proof.
  induction s as [|c s IH]; [done|].
  change (String c (s +:+ EmptyString) = String c s). by rewrite IH.
Qed.

Lemma split_ws_aux_append (tok s : string) :
  all_chars no_space tok = true ->
  split_ws_aux (tok +:+ s)
  = (tok +:+ (split_ws_aux s).1, (split_ws_aux s).2).
Proof.
  induction tok as [|c tok IH]; intros Hall.
  - change (split_ws_aux s = ((split_ws_aux s).1, (split_ws_aux s).2)).
    by destruct (split_ws_aux s).
  - simpl in Hall. apply andb_true_iff in Hall. destruct Hall as [Hc Hall].
    apply negb_true_iff in Hc.
    change (String c tok +:+ s) with (String c (tok +:+ s)).
    cbn [split_ws_aux]. rewrite (IH Hall), Hc. reflexivity.
Qed.

Lemma split_ws_aux_space (s : string) :
  split_ws_aux (String " " s)
  = (EmptyString, cons_nonempty (split_ws_aux s).1 (split_ws_aux s).2).
Proof. cbn [split_ws_aux]. by destruct (split_ws_aux s). Qed.

Lemma split_ws_aux_join (f : string) (rest : list string) :
  Forall plain_field (f :: rest) ->
  split_ws_aux (join_spaces (f :: rest)) = (f, rest).
Proof.
  revert f. induction rest as [|g rest IH]; intros f Hplain.
  - inversion Hplain as [|? ? (Hne & Hall & _) _]; subst.
    cbn [join_spaces]. rewrite <- (append_nil_r f) at 1.
    rewrite split_ws_aux_append by done. simpl. by rewrite append_nil_r.
  - inversion Hplain as [|? ? (Hne & Hall & _) Hrest]; subst.
    change (join_spaces (f :: g :: rest))
      with (f +:+ String " " (join_spaces (g :: rest))).
    rewrite split_ws_aux_append by done.
    rewrite split_ws_aux_space, (IH g Hrest). simpl.
    rewrite append_nil_r.
    inversion Hrest as [|? ? (Hg & _) _]; subst. by destruct g.
Qed.

Lemma split_ws_join (fields : list string) :
  Forall plain_field fields -> split_ws (join_spaces fields) = fields.
Proof.
  destruct fields as [|f rest]; [done|]. intros Hplain.
  unfold split_ws. rewrite (split_ws_aux_join f rest Hplain).
  inversion Hplain as [|? ? (Hne & _) _]; subst. by destruct f.
Qed.

(** A string whose ends are no whitespace has nothing to strip. *)
Lemma rstrip_id (s : string) (z : ascii) :
  last_char s = Some z -> isspace z = false -> rstrip s = s.
Proof.
  induction s as [|c r IH]; [done|]. intros Hlast Hz.
  destruct r as [|d r].
  - injection Hlast as ->. simpl. by rewrite Hz.
  - change (last_char (String c (String d r)))
      with (last_char (String d r)) in Hlast.
    change (rstrip (String c (String d r)))
      with (match rstrip (String d r) with
            | EmptyString =>
                if isspace c then EmptyString else String c EmptyString
            | r' => String c r'
            end).
    by rewrite (IH Hlast Hz).
Qed.

Lemma last_char_append (a : string) (c : ascii) (b : string) :
  last_char (a +:+ String c b) = last_char (String c b).
Proof.
  induction a as [|x a IH]; [done|].
  change (String x a +:+ String c b) with (String x (a +:+ String c b)).
  destruct (a +:+ String c b) as [|y t] eqn:E.
  - by destruct a.
  - change (last_char (String x (String y t))) with (last_char (String y t)).
    exact IH.
Qed.

Lemma all_chars_last (p : ascii -> bool) (s : string) (z : ascii) :
  all_chars p s = true -> last_char s = Some z -> p z = true.
Proof.
  induction s as [|c r IH]; [done|]. simpl all_chars.
  intros H Hlast. apply andb_true_iff in H. destruct H as [Hc Hr].
  destruct r as [|d r]; [by injection Hlast as <-|].
  by apply IH.
Qed.

Lemma join_spaces_ends (f : string) (rest : list string) :
  Forall plain_field (f :: rest) ->
  exists a z t,
    join_spaces (f :: rest) = String a t
    /\ isspace a = false
    /\ last_char (join_spaces (f :: rest)) = Some z
    /\ isspace z = false.
Proof.
  revert f. induction rest as [|g rest IH]; intros f Hplain;
    inversion Hplain as [|? ? (Hne & Hall & _) Hrest]; subst;
    destruct f as [|a f']; try done.
  - destruct (last_char_is_Some a f') as [z Hz].
    exists a, z, f'. split; [done|].
    pose proof Hall as Ha. simpl in Ha. apply andb_true_iff in Ha.
    destruct Ha as [Ha _]. apply negb_true_iff in Ha.
    split; [done|]. split; [done|].
    apply negb_true_iff. by apply (all_chars_last no_space (String a f')).
  - destruct (IH g Hrest) as (b & z & t & Hj & _ & Hz & Hzs).
    exists a, z. eexists.
    change (join_spaces (String a f' :: g :: rest))
      with (String a f' +:+ String " " (join_spaces (g :: rest))).
    split; [reflexivity|].
    pose proof Hall as Ha. simpl in Ha. apply andb_true_iff in Ha.
    destruct Ha as [Ha _]. apply negb_true_iff in Ha.
    split; [done|]. split; [|done].
    rewrite last_char_append. rewrite Hj in *.
    exact Hz.
Qed.

Lemma strip_join (fields : list string) :
  Forall plain_field fields ->
  strip (join_spaces fields) = join_spaces fields.
Proof.
  destruct fields as [|f rest]; [done|]. intros Hplain.
  destruct (join_spaces_ends f rest Hplain) as (a & z & t & Hj & Ha & Hz & Hzs).
  unfold strip. rewrite Hj in *. cbn [lstrip]. rewrite Ha.
  by apply (rstrip_id _ z).
Qed.

Lemma plain_field_not_delimiter (f : string) :
  plain_field f -> is_delimiter f = false.
Proof.
  intros (Hne & Hall & _ & Hcomma).
  destruct f as [|c [|d f]]; [done| |].
  2: { unfold is_delimiter, delimiter_list. simpl.
       by destruct (Ascii.eqb c ","), (Ascii.eqb c tab), (Ascii.eqb c " "). }
  unfold is_delimiter, delimiter_list. simpl existsb.
  simpl in Hall. rewrite andb_true_r in Hall. apply negb_true_iff in Hall.
  destruct (Ascii.eqb_spec c ","%char) as [->|_]; [done|].
  destruct (Ascii.eqb_spec c tab) as [->|_]; [done|].
  destruct (Ascii.eqb_spec c " "%char) as [->|_]; [done|].
  reflexivity.
Qed.

End Fields.

(** X9.  Without [external_file], [split_data_line] raises no exception
    on any line, and it returns at most as many fields as the line has
    whitespace-separated tokens. *)
Theorem split_data_line_default_never_raises (line : string) :
  exists fields,
    ArrayUtil.split_data_line line false = Ok fields
    /\ (length fields <= length (PyStr.split_ws (PyStr.strip line)))%nat.
Proof.
  unfold ArrayUtil.split_data_line, ArrayUtil.choose_split.
  destruct (proj1 (loops_bound _ (split_ws_nonempty (PyStr.strip line)) []))
    as (fields & Hf & Hb).
  exists fields. split; [done|]. simpl in Hb. lia.
Qed.

(** X10.  While a quote is open the loop indexes the last character of
    every token it absorbs, so an empty token raises [IndexError].  The
    whitespace split never produces an empty token; the split on a
    delimiter of an external file does, and the line ['a,,b] read as an
    external file raises. *)
Theorem open_quote_empty_field_raises :
  (forall (q : ascii) (body : string) (rest arr : list string),
      ArrayUtil.is_quote q = true ->
      ends_with_quote (String q body) false ->
      ArrayUtil.fix_quotes (String q body :: EmptyString :: rest) arr
      = Raise IndexError)
  /\ ArrayUtil.split_data_line (String ArrayUtil.squote "a,,b") true
     = Raise IndexError
  /\ (forall line : string,
        Forall (fun t => t <> EmptyString)
               (ArrayUtil.choose_split line false)).
Proof.
  split; [|split; [reflexivity|]].
  - intros q body rest arr Hq Hopen.
    rewrite fix_quotes_opening by done. apply open_quote_empty_token.
  - intros line. apply split_ws_nonempty.
Qed.

Lemma open_quote_empty_field_raises_witness :
  ArrayUtil.fix_quotes
    [String ArrayUtil.dquote "well"; EmptyString; "7"] ["x"]
  = Raise IndexError.
Proof.
  apply (proj1 open_quote_empty_field_raises ArrayUtil.dquote "well"
           ["7"] ["x"]).
  - reflexivity.
  - eexists. split; reflexivity.
Defined.

(** X11.  When no token of the split line opens with a quote,
    [split_data_line] returns the tokens in their order, leaving out
    those that are a lone comma, tab or space; this holds with and
    without [external_file]. *)
Theorem split_data_line_without_quotes (line : string) (external_file : bool) :
  Forall (fun t => forall c, ArrayUtil.first_char t = Some c ->
                             ArrayUtil.is_quote c = false)
         (ArrayUtil.choose_split line external_file) ->
  ArrayUtil.split_data_line line external_file
  = Ok (filter (fun t => ArrayUtil.is_delimiter t = false)
               (ArrayUtil.choose_split line external_file)).
Proof.
  intros H. unfold ArrayUtil.split_data_line.
  by rewrite (fix_quotes_plain _ H []).
Qed.

Lemma split_data_line_without_quotes_witness :
  ArrayUtil.split_data_line "  10 , 2.5  name " false
  = Ok ["10"; "2.5"; "name"].
Proof.
  apply (split_data_line_without_quotes "  10 , 2.5  name " false).
  repeat constructor; intros c [= <-]; reflexivity.
Defined.

(** X12.  Fields that are not empty, hold no whitespace, do not open with
    a quote and are no lone comma come back unchanged: splitting the
    line made of the fields joined by single spaces returns the
    fields. *)
Theorem split_data_line_of_joined_fields (fields : list string) :
  Forall plain_field fields ->
  ArrayUtil.split_data_line (join_spaces fields) false = Ok fields.
Proof.
  intros Hplain.
  unfold ArrayUtil.split_data_line, ArrayUtil.choose_split.
  rewrite strip_join, split_ws_join by done.
  rewrite fix_quotes_plain.
  - simpl. f_equal. induction Hplain as [|f rest Hf _ IH]; [done|].
    rewrite filter_cons_True by (by apply plain_field_not_delimiter).
    by rewrite IH.
  - eapply Forall_impl; [exact Hplain|]. intros f (_ & _ & Hq & _). exact Hq.
Qed.

Lemma split_data_line_of_joined_fields_witness :
  ArrayUtil.split_data_line "wel-1 3 -7.5e2 x,y" false
  = Ok ["wel-1"; "3"; "-7.5e2"; "x,y"].
Proof.
  apply (split_data_line_of_joined_fields ["wel-1"; "3"; "-7.5e2"; "x,y"]).
  repeat constructor; try done; intros c [= <-]; reflexivity.
Defined.

(** ** [find_keyword] and the case of the tokens *)

Section Case.
Import PyStr PyNum.

Ltac each_char c :=
  destruct c as [[] [] [] [] [] [] [] []]; vm_compute;
  repeat split; intros; (reflexivity || discriminate).

Lemma lower_char_isspace (c : ascii) : isspace (lower_char c) = isspace c.
Proof. each_char c. Qed.

Lemma lower_char_isdigit (c : ascii) : isdigit (lower_char c) = isdigit c.
Proof. each_char c. Qed.

Lemma lower_char_digit (c : ascii) : isdigit c = true -> lower_char c = c.
Proof. each_char c. Qed.

Lemma lower_char_underscore (c : ascii) :
  Ascii.eqb (lower_char c) "_" = Ascii.eqb c "_".
Proof. each_char c. Qed.

Lemma lower_char_dot (c : ascii) :
  Ascii.eqb (lower_char c) "." = Ascii.eqb c ".".
Proof. each_char c. Qed.

Lemma lower_char_exp (c : ascii) :
  Ascii.eqb (lower_char c) "e" || Ascii.eqb (lower_char c) "E"
  = Ascii.eqb c "e" || Ascii.eqb c "E".
Proof. each_char c. Qed.

Lemma lower_char_idemp (c : ascii) : lower_char (lower_char c) = lower_char c.
Proof. each_char c. Qed.

Lemma lower_cons (c : ascii) (r : string) :
  lower (String c r) = String (lower_char c) (lower r).
Proof. reflexivity. Qed.

Lemma lower_idemp (s : string) : lower (lower s) = lower s.
Proof.
  induction s as [|c r IH]; [done|].
  rewrite !lower_cons. by rewrite lower_char_idemp, IH.
Qed.

Lemma lstrip_lower (s : string) : lstrip (lower s) = lower (lstrip s).
Proof.
  induction s as [|c r IH]; [done|].
  rewrite lower_cons. cbn [lstrip]. rewrite lower_char_isspace, IH.
  by destruct (isspace c).
Qed.

Lemma rstrip_cons (c : ascii) (r : string) :
  rstrip (String c r)
  = match rstrip r with
    | EmptyString => if isspace c then EmptyString else String c EmptyString
    | r' => String c r'
    end.
Proof. reflexivity. Qed.

Lemma rstrip_lower (s : string) : rstrip (lower s) = lower (rstrip s).
Proof.
  induction s as [|c r IH]; [done|].
  rewrite lower_cons, !rstrip_cons, IH, lower_char_isspace.
  destruct (rstrip r); [by destruct (isspace c)|done].
Qed.

Lemma strip_lower (s : string) : strip (lower s) = lower (strip s).
Proof. unfold strip. by rewrite lstrip_lower, rstrip_lower. Qed.

Lemma lower_char_isspace_c (c : ascii) :
  isspace_c (lower_char c) = isspace_c c.
Proof. each_char c. Qed.

Lemma lstrip_c_lower (s : string) : lstrip_c (lower s) = lower (lstrip_c s).
Proof.
  induction s as [|c r IH]; [done|].
  rewrite lower_cons. cbn [lstrip_c]. rewrite lower_char_isspace_c, IH.
  by destruct (isspace_c c).
Qed.

Lemma rstrip_c_cons (c : ascii) (r : string) :
  rstrip_c (String c r)
  = match rstrip_c r with
    | EmptyString => if isspace_c c then EmptyString else String c EmptyString
    | r' => String c r'
    end.
Proof. reflexivity. Qed.

Lemma rstrip_c_lower (s : string) : rstrip_c (lower s) = lower (rstrip_c s).
Proof.
  induction s as [|c r IH]; [done|].
  rewrite lower_cons, !rstrip_c_cons, IH, lower_char_isspace_c.
  destruct (rstrip_c r); [by destruct (isspace_c c)|done].
Qed.

Lemma strip_c_lower (s : string) : strip_c (lower s) = lower (strip_c s).
Proof. unfold strip_c. by rewrite lstrip_c_lower, rstrip_c_lower. Qed.

Lemma strip_sign_lower (s : string) :
  strip_sign (lower s) = ((strip_sign s).1, lower (strip_sign s).2).
Proof.
  destruct s as [|c r]; [done|].
  destruct c as [[] [] [] [] [] [] [] []]; reflexivity.
Qed.

Definition lower_rest (x : Z * Z * string) : Z * Z * string :=
  (x.1.1, x.1.2, lower x.2).

Lemma scan_more_cons (acc n : Z) (c : ascii) (r : string) :
  scan_more acc n (String c r)
  = if isdigit c then scan_more (10 * acc + digit_val c) (n + 1) r
    else if Ascii.eqb c "_" then
      match r with
      | String d r' =>
          if isdigit d then scan_more (10 * acc + digit_val d) (n + 1) r'
          else (acc, n, String c r)
      | EmptyString => (acc, n, String c r)
      end
    else (acc, n, String c r).
Proof. reflexivity. Qed.

Lemma scan_more_lower (s : string) :
  (forall acc n, scan_more acc n (lower s) = lower_rest (scan_more acc n s))
  /\ (forall c acc n,
        scan_more acc n (lower (String c s))
        = lower_rest (scan_more acc n (String c s))).
Proof.
  induction s as [|d r [IH1 IH2]].
  - split; [done|]. intros c acc n.
    rewrite lower_cons, !scan_more_cons.
    rewrite lower_char_isdigit, lower_char_underscore.
    destruct (isdigit c) eqn:Hc.
    + by rewrite (lower_char_digit c Hc).
    + by destruct (Ascii.eqb c "_").
  - split; [intros acc n; apply IH2|]. intros c acc n.
    rewrite lower_cons, !scan_more_cons.
    rewrite lower_char_isdigit, lower_char_underscore.
    destruct (isdigit c) eqn:Hc.
    + rewrite (lower_char_digit c Hc). apply IH2.
    + destruct (Ascii.eqb c "_"); [|done].
      rewrite lower_cons, lower_char_isdigit.
      destruct (isdigit d) eqn:Hd; [|done].
      rewrite (lower_char_digit d Hd). apply IH1.
Qed.

Lemma digitpart_lower (acc n : Z) (s : string) :
  digitpart acc n (lower s) = lower_rest <$> digitpart acc n s.
Proof.
  destruct s as [|c r]; [done|].
  rewrite lower_cons. unfold digitpart. rewrite lower_char_isdigit.
  destruct (isdigit c) eqn:Hc; [|done].
  rewrite (lower_char_digit c Hc). simpl. f_equal.
  apply (proj1 (scan_more_lower r)).
Qed.

Lemma lower_empty (s : string) : lower s = EmptyString <-> s = EmptyString.
Proof. by destruct s. Qed.

Lemma int_of_str_lower (s : string) : int_of_str (lower s) = int_of_str s.
Proof.
  unfold int_of_str. rewrite strip_c_lower, strip_sign_lower.
  destruct (strip_sign (strip_c s)) as [neg body]. simpl.
  rewrite digitpart_lower.
  destruct (digitpart 0 0 body) as [[[v n] rest]|]; [|done].
  simpl. by destruct rest.
Qed.

Lemma exponent_lower (m e0 : Z) (s : string) :
  exponent m e0 (lower s) = exponent m e0 s.
Proof.
  destruct s as [|c r]; [done|].
  rewrite lower_cons. unfold exponent. rewrite lower_char_exp.
  destruct (_ || _); [|done].
  rewrite strip_sign_lower. destruct (strip_sign r) as [eneg r']. simpl.
  rewrite digitpart_lower.
  destruct (digitpart 0 0 r') as [[[x n] rest]|]; [|done].
  simpl. by destruct rest.
Qed.

Lemma fraction_lower (i : Z) (s : string) (need : bool) :
  fraction i (lower s) need = fraction i s need.
Proof.
  unfold fraction. rewrite digitpart_lower.
  destruct (digitpart i 0 s) as [[[m nf] rest]|]; simpl.
  - apply exponent_lower.
  - destruct need; [done|apply exponent_lower].
Qed.

(** The test for a leading point, written with a comparison. *)
Lemma decimal_unfold (s : string) :
  decimal s
  = match digitpart 0 0 s with
    | Some (i, _, rest) =>
        match rest with
        | String c rest' =>
            if Ascii.eqb c "." then fraction i rest' false
            else exponent i 0 rest
        | EmptyString => exponent i 0 rest
        end
    | None =>
        match s with
        | String c rest' =>
            if Ascii.eqb c "." then fraction 0 rest' true else None
        | EmptyString => None
        end
    end.
Proof.
  unfold decimal. destruct (digitpart 0 0 s) as [[[i n] rest]|].
  - destruct rest as [|c rest']; [done|].
    destruct c as [[] [] [] [] [] [] [] []]; reflexivity.
  - destruct s as [|c rest']; [done|].
    destruct c as [[] [] [] [] [] [] [] []]; reflexivity.
Qed.

Lemma decimal_lower (s : string) : decimal (lower s) = decimal s.
Proof.
  rewrite !decimal_unfold, digitpart_lower.
  destruct (digitpart 0 0 s) as [[[i n] rest]|]; simpl.
  - destruct rest as [|c rest']; [done|].
    rewrite lower_cons, lower_char_dot.
    destruct (Ascii.eqb c "."); [apply fraction_lower|].
    rewrite <- lower_cons. apply exponent_lower.
  - destruct s as [|c rest']; [done|].
    rewrite lower_cons, lower_char_dot.
    destruct (Ascii.eqb c "."); [apply fraction_lower|done].
Qed.

Lemma float_of_str_lower (s : string) : float_of_str (lower s) = float_of_str s.
Proof.
  unfold float_of_str. rewrite strip_c_lower, strip_sign_lower.
  destruct (strip_sign (strip_c s)) as [neg body]. simpl.
  by rewrite lower_idemp, decimal_lower.
Qed.

Lemma numeric_word_lower (w : string) :
  numeric_word (lower w) = numeric_word w.
Proof. unfold numeric_word. by rewrite int_of_str_lower, float_of_str_lower. Qed.

Lemma keywords_of_lower (arr_line : list string) :
  keywords_of (map lower arr_line) = keywords_of arr_line.
Proof.
  unfold keywords_of. induction arr_line as [|w rest IH]; [done|].
  simpl map at 2. destruct (numeric_word w) eqn:Hw.
  - rewrite !filter_cons_False by (rewrite ?numeric_word_lower; congruence).
    exact IH.
  - rewrite !filter_cons_True by (by rewrite ?numeric_word_lower).
    simpl. by rewrite lower_idemp, IH.
Qed.

End Case.

(** X13.  [find_keyword] does not depend on the case of the tokens:
    lower-casing every token of the line beforehand gives the same
    result, for every dictionary. *)
Theorem find_keyword_ignores_case {V : Type} (arr_line : list string)
    (keyword_dict : gmap (list string) V) :
  find_keyword (map PyStr.lower arr_line) keyword_dict
  = find_keyword arr_line keyword_dict.
Proof. by rewrite !find_keyword_eq, keywords_of_lower. Qed.

(** ** [NameIter] and [PathIter] *)

Section Names.
Import ArrayTemplateGenerator.

Lemma int_of_string_of_int (z : Z) :
  NilZero.int_of_string (NilZero.string_of_int (Z.to_int z))
  = Some (Z.to_int z).
Proof.
  apply NilZero.isi; destruct z; simpl; intros [= H]; try done;
    by apply Unsigned.to_uint_nonnil in H.
Qed.

Lemma str_of_int_inj (z z' : Z) : str_of_int z = str_of_int z' -> z = z'.
Proof.
  unfold str_of_int. intros H.
  apply DecimalZ.to_int_inj.
  pose proof (int_of_string_of_int z) as Hz.
  rewrite H, int_of_string_of_int in Hz. by injection Hz.
Qed.

Lemma append_inj_l (p a b : string) : p +:+ a = p +:+ b -> a = b.
Proof.
  induction p as [|c p IH]; [done|].
  change (String c (p +:+ a) = String c (p +:+ b) -> a = b).
  intros [= H]. by apply IH.
Qed.

Lemma append_neq (p : string) (c : ascii) (x : string) :
  p <> p +:+ String c x.
Proof.
  induction p as [|d p IH]; [done|].
  change (String d p <> String d (p +:+ String c x)).
  intros [= H]. by apply IH.
Qed.

Lemma nth_name_inj (name : string) (first_not_numbered : bool) (k k' : Z) :
  nth_name name first_not_numbered k = nth_name name first_not_numbered k' ->
  k = k'.
Proof.
  unfold nth_name.
  destruct ((k =? 0) && first_not_numbered) eqn:E,
           ((k' =? 0) && first_not_numbered) eqn:E'.
  - apply andb_true_iff in E, E'. lia.
  - intros H. by apply append_neq in H.
  - intros H. symmetry in H. by apply append_neq in H.
  - intros H. apply append_inj_l in H. injection H as H.
    by apply str_of_int_inj.
Qed.

Lemma NoDup_map_inj {A B} (f : A -> B) (l : list A) :
  (forall x y, f x = f y -> x = y) -> NoDup l -> NoDup (map f l).
Proof.
  intros Hinj. induction 1 as [|x l Hx Hl IH]; simpl; constructor; [|done].
  intros H. apply list_elem_of_In, in_map_iff in H.
  destruct H as (y & Hy & Hin). apply Hinj in Hy. subst y.
  by apply Hx, list_elem_of_In.
Qed.

Lemma NameIter_take_from (n : nat) :
  forall (name : string) (i : Z) (first_not_numbered : bool),
    NameIter.take n {| NameIter.name := name; NameIter.iter_num := i;
                       NameIter.first_not_numbered := first_not_numbered |}
    = map (nth_name name first_not_numbered) (seqZ (i + 1) (Z.of_nat n)).
Proof.
  induction n as [|n IH]; intros name i first_not_numbered; [done|].
  rewrite seqZ_cons by lia.
  replace (Z.pred (Z.of_nat (S n))) with (Z.of_nat n) by lia.
  replace (Z.succ (i + 1)) with (i + 1 + 1) by lia.
  cbn [NameIter.take map]. unfold NameIter.__next__, nth_name at 1.
  cbn [NameIter.iter_num NameIter.name NameIter.first_not_numbered].
  destruct ((i + 1 =? 0) && first_not_numbered); by rewrite IH.
Qed.

Lemma NameIter_take_NoDup (name : string) (first_not_numbered : bool)
    (n : nat) :
  NoDup (NameIter.take n (NameIter.init name first_not_numbered)).
Proof.
  unfold NameIter.init. rewrite NameIter_take_from.
  apply NoDup_map_inj; [apply nth_name_inj|apply NoDup_seqZ].
Qed.

End Names.

(** X14.  The [k]-th call of [__next__] on a fresh [NameIter] returns the
    name itself when [k] is 0 and [first_not_numbered] is set, and the
    name followed by an underscore and [k] otherwise; no name is handed
    out twice. *)
Theorem NameIter_names_are_distinct (name : string)
    (first_not_numbered : bool) (n : nat) :
  NameIter.take n (NameIter.init name first_not_numbered)
  = map (nth_name name first_not_numbered) (seqZ 0 (Z.of_nat n))
  /\ NoDup (NameIter.take n (NameIter.init name first_not_numbered)).
Proof.
  assert (NameIter.take n (NameIter.init name first_not_numbered)
          = map (nth_name name first_not_numbered) (seqZ 0 (Z.of_nat n)))
    as E by apply (NameIter_take_from n name (-1)).
  split; [done|]. apply NameIter_take_NoDup.
Qed.

(** X15.  A [PathIter] on a path with at least one component hands out
    paths of the same length that keep all components but the last and
    end in the successive names of a [NameIter] on the last component,
    so that no path is handed out twice; on the empty path the
    constructor raises [IndexError]. *)
Theorem PathIter_paths_are_distinct (front : list string) (last_name : string)
    (first_not_numbered : bool) :
  PathIter.init [] first_not_numbered = Raise IndexError
  /\ exists it,
       PathIter.init (front ++ [last_name]) first_not_numbered = Ok it
       /\ forall n : nat,
            PathIter.take n it
            = map (fun x => front ++ [x])
                  (NameIter.take n
                     (NameIter.init last_name first_not_numbered))
            /\ NoDup (PathIter.take n it)
            /\ Forall (fun p => length p = length (front ++ [last_name]))
                      (PathIter.take n it).
Proof.
  split; [reflexivity|].
  assert (py_index (front ++ [last_name]) (-1) = Ok last_name) as Hlast.
  { unfold py_index. cbv zeta.
    replace (-1 <? 0) with true by reflexivity.
    rewrite length_app. simpl length.
    replace (-1 + Z.of_nat (length front + 1) <? 0) with false
      by (symmetry; apply Z.ltb_ge; lia).
    replace (Z.to_nat (-1 + Z.of_nat (length front + 1)))
      with (length front) by lia.
    by rewrite list_lookup_middle. }
  unfold PathIter.init. rewrite Hlast. simpl rbind.
  eexists. split; [reflexivity|]. intros n.
  assert (forall st,
            PathIter.take n {| PathIter.path := front ++ [last_name];
                               PathIter.name_iter := st |}
            = map (fun x => front ++ [x]) (NameIter.take n st)) as Htake.
  { induction n as [|n IH]; intros st; [done|].
    cbn [PathIter.take NameIter.take]. unfold PathIter.__next__.
    cbn [PathIter.name_iter PathIter.path].
    destruct (NameIter.__next__ st) as [x st'].
    rewrite removelast_last, IH. reflexivity. }
  rewrite Htake. split; [done|]. split.
  - apply NoDup_map_inj.
    + intros x y H. apply app_inv_head in H. by injection H.
    + apply NameIter_take_NoDup.
  - apply Forall_forall. intros p Hp.
    apply list_elem_of_In, in_map_iff in Hp. destruct Hp as (x & <- & _).
    by rewrite !length_app.
Qed.

(** ** More on the template generators *)

Section Layers.
Import ArrayTemplateGenerator.

Lemma build_layers_list (s : schema) (default_value : option value)
    (todo : list DataStorageType) :
  forall built : list DataStorageType,
    build_layers s (Some (built ++ todo)) default_value (length todo)
                 (Z.of_nat (length built))
    = Ok (map (fun kind => _build_layer (datum_type s) kind default_value
                              (dimension_list s) false) todo).
Proof.
  induction todo as [|kind todo IH]; intros built; [reflexivity|].
  cbn [build_layers length].
  rewrite (py_index_nat _ _ kind) by (by apply list_lookup_middle).
  simpl rbind.
  replace (Z.of_nat (length built) + 1)
    with (Z.of_nat (length (built ++ [kind])))
    by (rewrite length_app; simpl; lia).
  rewrite (cons_middle kind built todo), app_assoc, IH. reflexivity.
Qed.

Lemma build_layers_default (s : schema) (default_value : option value)
    (n : nat) :
  forall layer : Z,
    build_layers s None default_value n layer
    = Ok (replicate n (_build_layer (datum_type s) internal_array
                         default_value (dimension_list s) false)).
Proof.
  induction n as [|n IH]; intros layer; [done|].
  cbn [build_layers]. simpl rbind. by rewrite IH.
Qed.

End Layers.

(** X16.  For a layered field with more than one layer, [empty] builds
    one header per layer, in the order of the layers and without
    printing: from a list of storage kinds of the right length the header
    of each layer has the kind listed for it, and without a list every
    layer is an internal array.  Each header is built for the shape
    without its first axis. *)
Theorem empty_layered_builds_every_layer
    (s : ArrayTemplateGenerator.schema)
    (kinds : list ArrayTemplateGenerator.DataStorageType)
    (default_value : option value) (layer_count : Z) :
  py_index (ArrayTemplateGenerator.dimension_list s) 0 = Ok layer_count ->
  1 < layer_count ->
  (Z.of_nat (length kinds) = layer_count ->
   ArrayTemplateGenerator.empty s true (Some kinds) default_value
   = ([], Ok (ArrayTemplateGenerator.wrap s
                (ArrayTemplateGenerator.PerLayer
                   (map (fun kind =>
                           ArrayTemplateGenerator._build_layer
                             (ArrayTemplateGenerator.datum_type s) kind
                             default_value
                             (ArrayTemplateGenerator.dimension_list s) false)
                        kinds)))))
  /\ ArrayTemplateGenerator.empty s true None default_value
     = ([], Ok (ArrayTemplateGenerator.wrap s
                  (ArrayTemplateGenerator.PerLayer
                     (replicate (Z.to_nat layer_count)
                        (ArrayTemplateGenerator._build_layer
                           (ArrayTemplateGenerator.datum_type s)
                           ArrayTemplateGenerator.internal_array
                           default_value
                           (ArrayTemplateGenerator.dimension_list s)
                           false))))).
Proof.
  intros Hd Hgt.
  assert ((1 <? layer_count) = true) as Hlt by (apply Z.ltb_lt; lia).
  split.
  - intros Hlen. unfold ArrayTemplateGenerator.empty.
    rewrite Hd. simpl rbind. rewrite Hlt.
    replace (Z.of_nat (length kinds) =? layer_count) with true
      by (symmetry; by apply Z.eqb_eq).
    cbn [negb]. rewrite <- Hlen, Nat2Z.id.
    pose proof (build_layers_list s default_value kinds []) as Hb.
    change ([] ++ kinds) with kinds in Hb.
    change (Z.of_nat (length (@nil ArrayTemplateGenerator.DataStorageType)))
      with 0 in Hb.
    by rewrite Hb.
  - unfold ArrayTemplateGenerator.empty.
    rewrite Hd. simpl rbind. rewrite Hlt.
    by rewrite build_layers_default.
Qed.

Lemma empty_layered_builds_every_layer_witness :
  ArrayTemplateGenerator.empty
    {| ArrayTemplateGenerator.dimension_list := [2; 3; 4];
       ArrayTemplateGenerator.datum_type := ArrayTemplateGenerator.np_float;
       ArrayTemplateGenerator.data_type :=
         ArrayTemplateGenerator.other_datatype |}
    true
    (Some [ArrayTemplateGenerator.internal_constant;
           ArrayTemplateGenerator.internal_array])
    None
  = ([], Ok (ArrayTemplateGenerator.Plain
               (ArrayTemplateGenerator.PerLayer
                  [ArrayTemplateGenerator.HBare (ArrayTemplateGenerator.DValue (VFloat 0));
                   ArrayTemplateGenerator.HInternal 1 1
                     (ArrayTemplateGenerator.DArray
                        (ArrayTemplateGenerator.np_empty [3; 4]
                           ArrayTemplateGenerator.np_float))]))).
Proof.
  apply (proj1 (empty_layered_builds_every_layer
                  {| ArrayTemplateGenerator.dimension_list := [2; 3; 4];
                     ArrayTemplateGenerator.datum_type :=
                       ArrayTemplateGenerator.np_float;
                     ArrayTemplateGenerator.data_type :=
                       ArrayTemplateGenerator.other_datatype |}
                  [ArrayTemplateGenerator.internal_constant;
                   ArrayTemplateGenerator.internal_array]
                  None 2 eq_refl ltac:(lia))).
  reflexivity.
Defined.

Section ListTemplate.
Import ListTemplateGenerator.

Lemma template_data_app (l1 l2 : list field) :
  _build_template_data (l1 ++ l2)
  = _build_template_data l1 ++ _build_template_data l2.
Proof. unfold _build_template_data. apply map_app. Qed.

Lemma template_data_objects (l : list field) :
  Forall (fun f => f.2 = t_object) l ->
  _build_template_data l = replicate (length l) P_none.
Proof.
  induction 1 as [|f l Hf _ IH]; [done|].
  unfold _build_template_data in *. simpl. by rewrite Hf, IH.
Qed.

Lemma aux_fields_objects (aux_vars : option (list aux_item)) :
  Forall (fun f => f.2 = t_object) (aux_fields aux_vars).
Proof.
  unfold aux_fields. destruct aux_vars as [vars|]; [|constructor].
  apply Forall_forall. intros f Hf.
  apply list_elem_of_In, in_map_iff in Hf. by destruct Hf as (x & <- & _).
Qed.

Lemma periods_lookup (r : rec_array) (periods : list Z) :
  forall (m : gmap Z rec_array) (sp : Z),
    fold_left (fun template stress_period => <[stress_period := r]> template)
              periods m !! sp
    = if decide (sp ∈ periods) then Some r else m !! sp.
Proof.
  induction periods as [|p periods IH]; intros m sp; [done|].
  simpl fold_left. rewrite IH.
  destruct (decide (sp ∈ periods)) as [Hin|Hnin].
  - rewrite decide_True; [done|]. by right.
  - destruct (decide (sp = p)) as [->|Hne].
    + rewrite decide_True by by left. by rewrite lookup_insert_eq.
    + rewrite decide_False.
      * by rewrite lookup_insert_ne.
      * intros H. apply elem_of_cons in H. by destruct H.
Qed.

End ListTemplate.

(** X17.  For a type list with distinct names that [numpy] accepts, the
    table of a list template has one row when [maxbound] is not given and [maxbound]
    rows when it is positive; a [maxbound] of zero or less leaves no
    row, and building the table raises [IndexError].  All rows are
    equal: the placeholders of the schema fields (0 for [int], NaN for
    [float], [None] otherwise), then [None] for every aux variable, then
    [None] for the bound name if one is asked for.  With [timeseries]
    every placeholder is [None]. *)
Theorem ListTemplate_rows (type_list : list ListTemplateGenerator.field)
    (maxbound : option Z)
    (aux_vars : option (list ListTemplateGenerator.aux_item))
    (boundnames timeseries : bool) (stress_periods : option (list Z)) :
  let final := ListTemplateGenerator.final_type_list type_list aux_vars
                 boundnames timeseries in
  let extra := (length (ListTemplateGenerator.aux_fields aux_vars)
                + (if boundnames then 1 else 0))%nat in
  let row :=
    if timeseries
    then replicate (length type_list + extra) ListTemplateGenerator.P_none
    else ListTemplateGenerator._build_template_data type_list
         ++ replicate extra ListTemplateGenerator.P_none in
  let table (rows : nat) :=
    ListTemplateGenerator.Table
      {| ListTemplateGenerator.rec_array_data := replicate rows row;
         ListTemplateGenerator.dtype := final |} in
  distinct_names final ->
  ListTemplateGenerator.empty type_list ListTemplateGenerator.other_datatype
    maxbound aux_vars boundnames timeseries stress_periods
  = match maxbound with
    | None => Ok (table 1%nat)
    | Some n => if 0 <? n then Ok (table (Z.to_nat n)) else Raise IndexError
    end.
Proof.
  intros final extra row table _. unfold ListTemplateGenerator.empty.
  fold final.
  assert (ListTemplateGenerator._build_template_data final = row) as ->.
  { subst row extra final. unfold ListTemplateGenerator.final_type_list.
    set (l2 := if boundnames then _ else _).
    assert (length l2
            = (length type_list
               + (length (ListTemplateGenerator.aux_fields aux_vars)
                  + (if boundnames then 1 else 0)))%nat) as Hlen.
    { subst l2. destruct boundnames; rewrite !length_app; simpl; lia. }
    destruct timeseries.
    - rewrite template_data_objects.
      + by rewrite length_map, Hlen.
      + apply Forall_forall. intros f Hf.
        apply list_elem_of_In, in_map_iff in Hf.
        by destruct Hf as (x & <- & _).
    - subst l2. destruct boundnames.
      + rewrite <- app_assoc, template_data_app. f_equal.
        rewrite template_data_objects.
        * rewrite length_app. reflexivity.
        * apply Forall_app. split; [apply aux_fields_objects|].
          by repeat constructor.
      + rewrite template_data_app. f_equal.
        rewrite template_data_objects by apply aux_fields_objects.
        by rewrite Nat.add_0_r. }
  destruct maxbound as [n|]; [|reflexivity].
  destruct (Z.ltb_spec 0 n) as [Hn|Hn].
  - destruct (Z.to_nat n) as [|k] eqn:E; [lia|]. reflexivity.
  - replace (Z.to_nat n) with 0%nat by lia. reflexivity.
Qed.

Lemma ListTemplate_rows_witness :
  ListTemplateGenerator.empty
    [(ListTemplateGenerator.AuxName "cellid", ListTemplateGenerator.t_int);
     (ListTemplateGenerator.AuxName "q", ListTemplateGenerator.t_float)]
    ListTemplateGenerator.other_datatype (Some 2)
    (Some [ListTemplateGenerator.AuxName "conc"]) true false None
  = Ok (ListTemplateGenerator.Table
          {| ListTemplateGenerator.rec_array_data :=
               replicate 2
                 [ListTemplateGenerator.P_zero; ListTemplateGenerator.P_nan;
                  ListTemplateGenerator.P_none; ListTemplateGenerator.P_none];
             ListTemplateGenerator.dtype :=
               [(ListTemplateGenerator.AuxName "cellid",
                 ListTemplateGenerator.t_int);
                (ListTemplateGenerator.AuxName "q",
                 ListTemplateGenerator.t_float);
                (ListTemplateGenerator.AuxName "conc",
                 ListTemplateGenerator.t_object);
                (ListTemplateGenerator.AuxName "boundnames",
                 ListTemplateGenerator.t_object)] |}).
Proof.
  apply (ListTemplate_rows
           [(ListTemplateGenerator.AuxName "cellid",
             ListTemplateGenerator.t_int);
            (ListTemplateGenerator.AuxName "q", ListTemplateGenerator.t_float)]
           (Some 2) (Some [ListTemplateGenerator.AuxName "conc"])
           true false None).
  split; [done|]. split; simpl.
  - repeat constructor; eexists; (split; [reflexivity|done]).
  - repeat (apply NoDup_cons_2;
            [intros H;
             repeat (apply elem_of_cons in H; destruct H as [H|H];
                     [discriminate|]);
             by apply elem_of_nil in H|]).
    apply NoDup_nil_2.
Defined.

(** X18.  For a transient or multiple list with a type list of distinct
    names that [numpy] accepts, and with [maxbound] positive or not given, the template is a
    dictionary of tables: with a list of stress periods it has an entry
    for exactly the periods listed, each holding the table that a plain
    list gets, and without one it has the single entry 0.  With a
    [maxbound] of zero or less the call raises [IndexError] whatever the
    stress periods are. *)
Theorem ListTemplate_periods (type_list : list ListTemplateGenerator.field)
    (data_type : ListTemplateGenerator.DataType) (maxbound : option Z)
    (aux_vars : option (list ListTemplateGenerator.aux_item))
    (boundnames timeseries : bool) (stress_periods : option (list Z)) :
  data_type <> ListTemplateGenerator.other_datatype ->
  distinct_names (ListTemplateGenerator.final_type_list type_list aux_vars
                    boundnames timeseries) ->
  ((forall n, maxbound = Some n -> 0 < n) ->
   exists (table : ListTemplateGenerator.rec_array)
          (template : gmap Z ListTemplateGenerator.rec_array),
     ListTemplateGenerator.empty type_list ListTemplateGenerator.other_datatype
       maxbound aux_vars boundnames timeseries stress_periods
     = Ok (ListTemplateGenerator.Table table)
     /\ ListTemplateGenerator.empty type_list data_type maxbound aux_vars
          boundnames timeseries stress_periods
        = Ok (ListTemplateGenerator.ByPeriod template)
     /\ forall sp : Z,
          template !! sp
          = if decide (sp ∈ default [0] stress_periods) then Some table
            else None)
  /\ (forall n, maxbound = Some n -> n <= 0 ->
      ListTemplateGenerator.empty type_list data_type maxbound aux_vars
        boundnames timeseries stress_periods
      = Raise IndexError).
Proof.
  intros Hdt _. unfold ListTemplateGenerator.empty. split.
  - intros Hpos.
    set (rows := match maxbound with
                 | Some n => replicate (Z.to_nat n) _
                 | None => _
                 end).
    assert (exists r rest, rows = r :: rest) as (r & rest & ->).
    { subst rows. destruct maxbound as [n|]; [|eauto].
      specialize (Hpos n eq_refl).
      destruct (Z.to_nat n) as [|k] eqn:E; [lia|]. simpl. eauto. }
    simpl rbind. eexists. destruct stress_periods as [periods|].
    + eexists. split; [reflexivity|]. split; [by destruct data_type|].
      intros sp. by rewrite periods_lookup, lookup_empty.
    + eexists. split; [reflexivity|]. split; [by destruct data_type|].
      intros sp. simpl default.
      destruct (decide (sp = 0)) as [->|Hne].
      * rewrite lookup_singleton_eq. by rewrite decide_True by by left.
      * rewrite lookup_singleton_ne by done.
        rewrite decide_False; [done|]. by rewrite list_elem_of_singleton.
  - intros n -> Hn. replace (Z.to_nat n) with 0%nat by lia. reflexivity.
Qed.

Lemma ListTemplate_periods_witness :
  exists table template,
    ListTemplateGenerator.empty
      [(ListTemplateGenerator.AuxName "cellid", ListTemplateGenerator.t_int);
       (ListTemplateGenerator.AuxName "q", ListTemplateGenerator.t_float)]
      ListTemplateGenerator.list_transient (Some 2)
      (Some [ListTemplateGenerator.AuxName "conc"]) false false
      (Some [0; 3])
    = Ok (ListTemplateGenerator.ByPeriod template)
    /\ template !! 3 = Some table
    /\ template !! 1 = None.
Proof.
  assert (distinct_names
            (ListTemplateGenerator.final_type_list
               [(ListTemplateGenerator.AuxName "cellid",
                 ListTemplateGenerator.t_int);
                (ListTemplateGenerator.AuxName "q",
                 ListTemplateGenerator.t_float)]
               (Some [ListTemplateGenerator.AuxName "conc"]) false false))
    as Hnames.
  { split; [done|]. split; simpl.
    - repeat constructor; eexists; (split; [reflexivity|done]).
    - repeat (apply NoDup_cons_2;
              [intros H;
               repeat (apply elem_of_cons in H; destruct H as [H|H];
                       [discriminate|]);
               by apply elem_of_nil in H|]).
      apply NoDup_nil_2. }
  destruct (proj1 (ListTemplate_periods
              [(ListTemplateGenerator.AuxName "cellid",
                ListTemplateGenerator.t_int);
               (ListTemplateGenerator.AuxName "q",
                ListTemplateGenerator.t_float)]
              ListTemplateGenerator.list_transient (Some 2)
              (Some [ListTemplateGenerator.AuxName "conc"]) false false
              (Some [0; 3]) ltac:(discriminate) Hnames)
             ltac:(intros n [= <-]; lia))
    as (table & template & _ & Ht & Hl).
  exists table, template. split; [exact Ht|]. split.
  - rewrite Hl. reflexivity.
  - rewrite Hl. reflexivity.
Defined.

(** ** An exhausted [ArrayIndexIter] *)

Section Exhausted.
Import ArrayIndexIter.

Lemma py_index_raises {A} (l : list A) (i : Z) (e : exn) :
  py_index l i = Raise e -> e = IndexError.
Proof.
  unfold py_index. cbv zeta.
  destruct (_ <? 0); [by intros [= <-]|].
  destruct (l !! _); [done|by intros [= <-]].
Qed.

Lemma py_setitem_raises {A} (l : list A) (i : Z) (x : A) (e : exn) :
  py_setitem l i x = Raise e -> e = IndexError.
Proof.
  unfold py_setitem. cbv zeta.
  destruct (_ || _); [by intros [= <-]|done].
Qed.

Lemma location_value_raises (loc : list Z) (e : exn) :
  location_value loc = Raise e -> e = IndexError.
Proof.
  unfold location_value. destruct (1 <? _); [done|].
  destruct (py_index loc 0) eqn:E; [done|].
  simpl. intros [= <-]. by apply py_index_raises in E.
Qed.

(** A pass of the loop raises nothing but [IndexError] and leaves
    [first_item] as it is. *)
Lemma loop_body_spec (self self' : t) (r : result (option coord)) :
  loop_body self = (r, self') ->
  first_item self' = first_item self
  /\ (forall e, r = Raise e -> e = IndexError).
Proof.
  unfold loop_body.
  destruct (py_index (current_location self) (current_index self))
    as [location|e1] eqn:E1.
  2: { intros [= <- <-]. split; [done|]. intros e [= <-].
       by apply py_index_raises in E1. }
  destruct (py_index (array_shape self) (current_index self))
    as [bound|e2] eqn:E2.
  2: { intros [= <- <-]. split; [done|]. intros e [= <-].
       by apply py_index_raises in E2. }
  destruct (location <? bound - 1).
  - destruct (py_setitem _ _ _) as [loc'|e3] eqn:E3.
    + intros [= <- <-]. split; [done|]. intros e.
      destruct (location_value loc') eqn:E4; [done|].
      simpl. intros [= <-]. by apply location_value_raises in E4.
    + intros [= <- <-]. split; [done|]. intros e [= <-].
      by apply py_setitem_raises in E3.
  - destruct (py_setitem _ _ _) as [loc'|e3] eqn:E3.
    + intros [= <- <-]. by split.
    + intros [= <- <-]. split; [done|]. intros e [= <-].
      by apply py_setitem_raises in E3.
Qed.

Lemma while_loop_stops (fuel : nat) :
  forall self self' : t,
    while_loop fuel self = Some (Raise StopIteration, self') ->
    current_index self' < 0 /\ first_item self' = first_item self.
Proof.
  induction fuel as [|fuel IH]; intros self self'; cbn [while_loop];
    destruct (Z.leb_spec 0 (current_index self)) as [Hle|Hlt].
  - done.
  - intros [= <-]. by split.
  - destruct (loop_body self) as [r s1] eqn:Hb.
    destruct (loop_body_spec _ _ _ Hb) as [Hfirst Hexn].
    destruct r as [[c|]|e].
    + done.
    + intros H. destruct (IH _ _ H) as [Hidx Hf]. split; [done|congruence].
    + intros [= -> <-]. by specialize (Hexn _ eq_refl).
  - intros [= <-]. by split.
Qed.

End Exhausted.

(** X19.  Once [__next__] has raised [StopIteration], the iterator is
    left with a negative [current_index], and every later call raises
    [StopIteration] again without changing the object; this holds from
    every state of the object, whatever the shape. *)
Theorem ArrayIndexIter_stays_exhausted (self self' : ArrayIndexIter.t) :
  ArrayIndexIter.__next__ self = Some (Raise StopIteration, self') ->
  ArrayIndexIter.current_index self' < 0
  /\ ArrayIndexIter.__next__ self' = Some (Raise StopIteration, self').
Proof.
  unfold ArrayIndexIter.__next__ at 1.
  destruct (ArrayIndexIter.first_item self) eqn:Hfirst.
  - intros [= H _]. by apply location_value_raises in H.
  - intros H. apply while_loop_stops in H. destruct H as [Hidx Hf].
    split; [done|]. unfold ArrayIndexIter.__next__.
    rewrite Hf, Hfirst.
    replace (Z.to_nat (ArrayIndexIter.current_index self' + 1)) with 0%nat
      by lia.
    cbn [ArrayIndexIter.while_loop].
    by replace (0 <=? ArrayIndexIter.current_index self') with false
      by (symmetry; apply Z.leb_gt; lia).
Qed.

Lemma ArrayIndexIter_stays_exhausted_witness :
  ArrayIndexIter.__next__ (running [2; 2] [0; 0] (-1))
  = Some (Raise StopIteration, running [2; 2] [0; 0] (-1)).
Proof.
  apply (proj2 (ArrayIndexIter_stays_exhausted
                  (running [2; 2] [1; 1] 1) (running [2; 2] [0; 0] (-1))
                  eq_refl)).
Defined.
